(** * GitHub Issue Analyzer: a shallow embedding of [backend/main.py] and
    [backend/models.py], and the properties of the specification checked
    against it.

    Python [str] values are modelled as lists of characters whose code points
    lie in U+0000..U+00FF (the type [ascii] read as a code point); on that
    range [str.strip], [str.lower] and the [\s] class are defined exactly as
    CPython defines them.  Functions that can raise return a [res]; the
    outbound HTTP and model calls go through an explicit environment and are
    recorded in a trace. *)

From Stdlib Require Import Ascii String DecimalString.
From Stdlib Require Import ZArith NArith Bool Arith Lia List.
Import ListNotations.
Local Open Scope list_scope.

Set Implicit Arguments.

(* ================================================================= *)
(** ** Python strings *)

Module Py.

Definition str := list ascii.

(** A string literal of the source. *)
Definition py (s : string) : str := list_ascii_of_string s.
Arguments py s%_string.

Definition chr_eqb (a b : ascii) : bool := Ascii.eqb a b.

Fixpoint str_eqb (a b : str) : bool :=
  match a, b with
  | [], [] => true
  | x :: a', y :: b' => chr_eqb x y && str_eqb a' b'
  | _, _ => false
  end.

(** [not s] for a string. *)
Definition is_empty (s : str) : bool :=
  match s with [] => true | _ => false end.

(** [s or d] for strings. *)
Definition str_or (s d : str) : str := if is_empty s then d else s.

Definition code (c : ascii) : N := N_of_ascii c.

(** [c.isspace()]: U+0009..U+000D, U+001C..U+0020, U+0085, U+00A0. *)
Definition isspace (c : ascii) : bool :=
  let n := code c in
  (((9 <=? n) && (n <=? 13)) || ((28 <=? n) && (n <=? 32))
   || (n =? 133) || (n =? 160))%N.

Fixpoint lstrip_with (p : ascii -> bool) (s : str) : str :=
  match s with
  | c :: s' => if p c then lstrip_with p s' else s
  | [] => []
  end.

Definition rstrip_with (p : ascii -> bool) (s : str) : str :=
  rev (lstrip_with p (rev s)).

(** [s.strip()] *)
Definition strip (s : str) : str := rstrip_with isspace (lstrip_with isspace s).

(** [s.rstrip(c)] for a one-character argument. *)
Definition rstrip_chr (c : ascii) (s : str) : str := rstrip_with (chr_eqb c) s.

(** [c.lower()] on U+0000..U+00FF: A-Z and the Latin-1 capitals
    U+00C0..U+00DE (without the multiplication sign U+00D7) move by 32. *)
Definition lower_chr (c : ascii) : ascii :=
  let n := code c in
  if (((65 <=? n) && (n <=? 90))
      || ((192 <=? n) && (n <=? 222) && negb (n =? 215)))%N
  then ascii_of_N (n + 32) else c.

(** [s.lower()] *)
Definition lower (s : str) : str := map lower_chr s.

(** [s.startswith(p)] *)
Fixpoint startswith (p s : str) : bool :=
  match p, s with
  | [], _ => true
  | a :: p', b :: s' => chr_eqb a b && startswith p' s'
  | _ :: _, [] => false
  end.

(** [s.startswith((p1, p2, ...))] *)
Definition startswith_any (ps : list str) (s : str) : bool :=
  existsb (fun p => startswith p s) ps.

(** [s.endswith(p)] *)
Definition endswith (p s : str) : bool := startswith (rev p) (rev s).

(** [sub in s] *)
Fixpoint contains (sub s : str) : bool :=
  startswith sub s ||
  match s with
  | [] => false
  | _ :: s' => contains sub s'
  end.

(** [s[:n]] for [n >= 0]. *)
Definition slice_to (n : nat) (s : str) : str := firstn n s.

(** [s[:-n]] for [n > 0]. *)
Definition slice_to_neg (n : nat) (s : str) : str := firstn (length s - n) s.

(** [sep.join(xs)] *)
Fixpoint join (sep : str) (xs : list str) : str :=
  match xs with
  | [] => []
  | [x] => x
  | x :: xs' => x ++ sep ++ join sep xs'
  end.

(** [str(n)] for an [int]. *)
Definition str_of_int (n : Z) : str :=
  py (NilZero.string_of_int (Z.to_int n)).

End Py.
Import Py.

(* ================================================================= *)
(** ** Exceptions and results *)

Inductive exn : Type :=
| ValueError (msg : str)
| ValidationError (msg : str)      (* pydantic; a subclass of ValueError *)
| JSONDecodeError                  (* json; a subclass of ValueError *)
| TypeError
| KeyError (key : str)
| AttributeError
| RequestException (msg : str)     (* requests.exceptions.RequestException *)
| Timeout                          (* requests.exceptions.Timeout *)
| ConnectionError                  (* requests.exceptions.ConnectionError *)
| OtherException (msg : str).

(** [isinstance(e, ValueError)] *)
Definition is_ValueError (e : exn) : bool :=
  match e with
  | ValueError _ | ValidationError _ | JSONDecodeError => true
  | _ => false
  end.

(** [isinstance(e, requests.exceptions.RequestException)] *)
Definition is_RequestException (e : exn) : bool :=
  match e with
  | RequestException _ | Timeout | ConnectionError => true
  | _ => false
  end.

Inductive res (A : Type) : Type :=
| Ok (a : A)
| Raise (e : exn).
Arguments Ok {A} a.
Arguments Raise {A} e.

(* ================================================================= *)
(** ** The regular expressions of the source

    A backtracking matcher in continuation-passing style, with the priority
    order of Python's [re]: greedy repetition tries the longest run first,
    [X?] tries [X] first.  Repetition is over a one-character item, which is
    all the patterns of the source use. *)

Module Re.

Inductive regex : Type :=
| Eps
| Chr (c : ascii)                (* a literal character *)
| Cls (p : ascii -> bool)        (* a class: [.], [[...]], [[^...]] *)
| Star (p : ascii -> bool)       (* greedy [X*], X a class *)
| Opt (r : regex)                (* greedy [X?] *)
| Grp (r : regex)                (* a capturing group *)
| Cat (r1 r2 : regex)
| Bol                            (* [^] *)
| Eol.                           (* [$], without MULTILINE *)

Infix "+++" := Cat (at level 61, right associativity).

(** [X+] *)
Definition Plus (p : ascii -> bool) : regex := Cls p +++ Star p.

(** A literal string. *)
Fixpoint Lit (w : str) : regex :=
  match w with
  | [] => Eps
  | c :: w' => Chr c +++ Lit w'
  end.

Section Matcher.
Variable A : Type.

(** A continuation receives the text consumed by the sub-pattern, the rest
    of the subject and the groups closed so far. *)
Definition cont := str -> str -> list str -> option A.

Fixpoint star (p : ascii -> bool) (s : str) (k : str -> str -> option A)
  : option A :=
  match s with
  | c :: s' =>
      if p c then
        match star p s' (fun w t => k (c :: w) t) with
        | Some x => Some x
        | None => k [] s
        end
      else k [] s
  | [] => k [] []
  end.

(** [run r bos s g k]: match [r] at the head of [s]; [bos] tells whether
    [s] starts at the beginning of the subject. *)
Fixpoint run (r : regex) (bos : bool) (s : str) (g : list str) (k : cont)
  : option A :=
  match r with
  | Eps => k [] s g
  | Chr c =>
      match s with
      | x :: s' => if chr_eqb x c then k [x] s' g else None
      | [] => None
      end
  | Cls p =>
      match s with
      | x :: s' => if p x then k [x] s' g else None
      | [] => None
      end
  | Star p => star p s (fun w t => k w t g)
  | Opt r1 =>
      match run r1 bos s g k with
      | Some x => Some x
      | None => k [] s g
      end
  | Grp r1 => run r1 bos s g (fun w t g' => k w t (g' ++ [w]))
  | Cat r1 r2 =>
      run r1 bos s g (fun w1 t g1 =>
        run r2 (bos && is_empty w1) t g1 (fun w2 t' g2 =>
          k (w1 ++ w2) t' g2))
  | Bol => if bos then k [] s g else None
  | Eol =>
      (* the end of the string, or just before a newline that ends it *)
      match s with
      | [] => k [] s g
      | [c] => if chr_eqb c "010"%char then k [] s g else None
      | _ => None
      end
  end.
End Matcher.

(** A match object: [m.group()] and [m.groups()]. *)
Record match_obj : Type := { group : str; groups : list str }.

Definition accept : cont match_obj :=
  fun w _ g => Some {| group := w; groups := g |}.

(** [re.match(r, s)] *)
Definition re_match (r : regex) (s : str) : option match_obj :=
  run r true s [] accept.

Fixpoint search_from (r : regex) (bos : bool) (s : str) : option match_obj :=
  match run r bos s [] accept with
  | Some m => Some m
  | None =>
      match s with
      | [] => None
      | _ :: s' => search_from r false s'
      end
  end.

(** [re.search(r, s)] *)
Definition re_search (r : regex) (s : str) : option match_obj :=
  search_from r true s.

(** Character classes. *)
Definition not_slash (c : ascii) : bool := negb (chr_eqb c "/"%char).
Definition any_chr (c : ascii) : bool := true.     (* [.] under DOTALL *)

(** [[a-zA-Z0-9\-_\s]] *)
Definition label_chr (c : ascii) : bool :=
  let n := code c in
  (((97 <=? n) && (n <=? 122)) || ((65 <=? n) && (n <=? 90))
   || ((48 <=? n) && (n <=? 57)) || (n =? 45) || (n =? 95))%N
  || isspace c.

End Re.
Import Re.

(* ================================================================= *)
(** ** JSON values

    [json.loads] is a library function: the environment below carries it as
    [json_loads].  [Json.loads] is a decoder for the JSON grammar with which
    the environment is instantiated in the examples. *)

Module Json.

#[warnings="-register-all"]
Inductive json : Type :=
| JNull
| JBool (b : bool)
| JNum (literal : str)
| JStr (s : str)
| JArr (items : list json)
| JObj (members : list (str * json)).

(** A Python [dict] with string keys: an association list read through
    [dict_get] and written through [dict_set], so that a key is bound once. *)
Definition dict := list (str * json).

Fixpoint dict_get (key : str) (d : dict) : option json :=
  match d with
  | [] => None
  | (k, v) :: d' => if str_eqb k key then Some v else dict_get key d'
  end.

Fixpoint dict_set (key : str) (v : json) (d : dict) : dict :=
  match d with
  | [] => [(key, v)]
  | (k, v') :: d' =>
      if str_eqb k key then (k, v) :: d' else (k, v') :: dict_set key v d'
  end.

Definition dq : ascii := ascii_of_nat 34.        (* the double quote *)
Definition bslash : ascii := ascii_of_nat 92.    (* the backslash *)

Definition is_ws (c : ascii) : bool :=
  let n := code c in ((n =? 32) || (n =? 9) || (n =? 10) || (n =? 13))%N.

Definition skip_ws (s : str) : str := lstrip_with is_ws s.

Definition is_digit (c : ascii) : bool :=
  let n := code c in ((48 <=? n) && (n <=? 57))%N.

Definition hex_val (c : ascii) : option N :=
  let n := code c in
  if ((48 <=? n) && (n <=? 57))%N then Some (n - 48)%N
  else if ((97 <=? n) && (n <=? 102))%N then Some (n - 87)%N
  else if ((65 <=? n) && (n <=? 70))%N then Some (n - 55)%N
  else None.

(** The body of a string, after its opening quote.  An escape [\uXXXX] is
    decoded when its code point is below U+0100. *)
Fixpoint scan_string (s acc : str) : option (str * str) :=
  match s with
  | [] => None
  | c :: s' =>
      if chr_eqb c dq then Some (rev acc, s')
      else if chr_eqb c bslash then
        match s' with
        | "u"%char :: h1 :: h2 :: h3 :: h4 :: r =>
            match hex_val h1, hex_val h2, hex_val h3, hex_val h4 with
            | Some 0%N, Some 0%N, Some a, Some b =>
                scan_string r (ascii_of_N (16 * a + b) :: acc)
            | _, _, _, _ => None
            end
        | e :: r =>
            let n := code e in
            if (n =? 34)%N then scan_string r (dq :: acc)
            else if (n =? 92)%N then scan_string r (bslash :: acc)
            else if (n =? 47)%N then scan_string r ("/"%char :: acc)
            else if (n =? 98)%N then scan_string r (ascii_of_nat 8 :: acc)
            else if (n =? 102)%N then scan_string r (ascii_of_nat 12 :: acc)
            else if (n =? 110)%N then scan_string r (ascii_of_nat 10 :: acc)
            else if (n =? 114)%N then scan_string r (ascii_of_nat 13 :: acc)
            else if (n =? 116)%N then scan_string r (ascii_of_nat 9 :: acc)
            else None
        | [] => None
        end
      else if (code c <? 32)%N then None
      else scan_string s' (c :: acc)
  end.

Fixpoint take_digits (s : str) : str * str :=
  match s with
  | c :: s' =>
      if is_digit c then let (d, r) := take_digits s' in (c :: d, r)
      else ([], s)
  | [] => ([], [])
  end.

(** A number: an optional minus sign, an integer part without a leading
    zero, an optional fraction and an optional exponent. *)
Definition scan_number (s : str) : option (str * str) :=
  let (sign, s1) :=
    match s with
    | "-"%char :: r => (["-"%char], r)
    | _ => ([], s)
    end in
  let (int_part, s2) :=
    match s1 with
    | "0"%char :: r => (["0"%char], r)
    | _ => take_digits s1
    end in
  if is_empty int_part then None else
  let (frac, s3) :=
    match s2 with
    | "."%char :: r =>
        let (d, r') := take_digits r in
        if is_empty d then ([], s2) else ("."%char :: d, r')
    | _ => ([], s2)
    end in
  let (exp, s4) :=
    match s3 with
    | e :: r =>
        if chr_eqb e "e"%char || chr_eqb e "E"%char then
          let (sg, r1) :=
            match r with
            | x :: r' =>
                if chr_eqb x "+"%char || chr_eqb x "-"%char then ([x], r')
                else ([], r)
            | [] => ([], r)
            end in
          let (d, r2) := take_digits r1 in
          if is_empty d then ([], s3) else (e :: sg ++ d, r2)
        else ([], s3)
    | [] => ([], s3)
    end in
  Some (sign ++ int_part ++ frac ++ exp, s4).

Definition scan_word (w : string) (v : json) (s : str) : option (json * str) :=
  if startswith (py w) s then Some (v, skipn (length (py w)) s) else None.
Arguments scan_word w%_string v s.

Fixpoint value (fuel : nat) (s : str) : option (json * str) :=
  match fuel with
  | O => None
  | S fuel' =>
      match s with
      | [] => None
      | c :: s' =>
          if chr_eqb c dq then
            match scan_string s' [] with
            | Some (w, r) => Some (JStr w, r)
            | None => None
            end
          else if chr_eqb c "["%char then
            match skip_ws s' with
            | "]"%char :: r => Some (JArr [], r)
            | r => items fuel' r []
            end
          else if chr_eqb c "{"%char then
            match skip_ws s' with
            | "}"%char :: r => Some (JObj [], r)
            | r => members fuel' r []
            end
          else if chr_eqb c "n"%char then scan_word "null" JNull s
          else if chr_eqb c "t"%char then scan_word "true" (JBool true) s
          else if chr_eqb c "f"%char then scan_word "false" (JBool false) s
          else
            match scan_number s with
            | Some (w, r) => Some (JNum w, r)
            | None => None
            end
      end
  end

with items (fuel : nat) (s : str) (acc : list json) : option (json * str) :=
  match fuel with
  | O => None
  | S fuel' =>
      match value fuel' s with
      | Some (v, r) =>
          match skip_ws r with
          | ","%char :: r' => items fuel' (skip_ws r') (acc ++ [v])
          | "]"%char :: r' => Some (JArr (acc ++ [v]), r')
          | _ => None
          end
      | None => None
      end
  end

with members (fuel : nat) (s : str) (acc : dict) : option (json * str) :=
  match fuel with
  | O => None
  | S fuel' =>
      match s with
      | c :: s' =>
          if chr_eqb c dq then
            match scan_string s' [] with
            | Some (key, r) =>
                match skip_ws r with
                | ":"%char :: r1 =>
                    match value fuel' (skip_ws r1) with
                    | Some (v, r2) =>
                        match skip_ws r2 with
                        | ","%char :: r3 =>
                            members fuel' (skip_ws r3) (dict_set key v acc)
                        | "}"%char :: r3 => Some (JObj (dict_set key v acc), r3)
                        | _ => None
                        end
                    | None => None
                    end
                | _ => None
                end
            | None => None
            end
          else None
      | [] => None
      end
  end.

(** The decoder: one value between optional white space, nothing after. *)
Definition loads (s : str) : option json :=
  match value (S (length s)) (skip_ws s) with
  | Some (v, r) => if is_empty (skip_ws r) then Some v else None
  | None => None
  end.

End Json.
Import Json.

(* ================================================================= *)
(** ** models.py

    The pydantic models.  A [Field] constraint ([ge], [max_length],
    [min_items], [max_items], [pattern]) is checked on the incoming value
    before the field's [@validator] runs; a validator that raises [ValueError]
    makes the construction raise pydantic's [ValidationError], which lists the
    fields in error. *)

Module Models.

Definition is_some {A : Type} (o : option A) : bool :=
  match o with Some _ => true | None => false end.

(** *** IssueRequest *)

Record IssueRequest : Type := { repo_url : str; issue_number : Z }.

Definition owner_repo_plain : regex :=
  Plus not_slash +++ Chr "/" +++ Plus not_slash +++ Opt (Chr "/") +++ Eol.

Definition github_patterns : list regex :=
  [ Lit (py "https://github.com/") +++ owner_repo_plain;
    Lit (py "http://github.com/") +++ owner_repo_plain;
    Lit (py "github.com/") +++ owner_repo_plain;
    Bol +++ owner_repo_plain ].

Definition validate_repo_url (v : str) : res str :=
  if is_empty v || is_empty (strip v) then
    Raise (ValueError (py "Repository URL cannot be empty"))
  else if negb (existsb (fun pattern => is_some (re_match pattern (strip v)))
                        github_patterns) then
    Raise (ValueError (py "Invalid GitHub repository URL format"))
  else Ok (strip v).

(** [Field(..., ge=1)] *)
Definition check_issue_number (n : Z) : res Z :=
  if (1 <=? n)%Z then Ok n else Raise (ValueError (py "ge")).

Definition failed {A : Type} (name : string) (r : res A) : list str :=
  match r with Ok _ => [] | Raise _ => [py name] end.
Arguments failed {A} name%_string r.

(** [IssueRequest(repo_url=..., issue_number=...)] *)
Definition IssueRequest_init (url : str) (number : Z) : res IssueRequest :=
  match validate_repo_url url, check_issue_number number with
  | Ok u, Ok n => Ok {| repo_url := u; issue_number := n |}
  | r1, r2 =>
      Raise (ValidationError
               (join (py ", ") (failed "repo_url" r1 ++ failed "issue_number" r2)))
  end.

(** *** IssueAnalysis *)

Record IssueAnalysis : Type := {
  summary : str;
  type : str;
  priority_score : str;
  suggested_labels : list str;
  potential_impact : str
}.

(** The [pattern] of [type]: the five literals between [^] and [$]. *)
Definition issue_types : list str :=
  [py "bug"; py "feature_request"; py "documentation"; py "question"; py "other"].

Definition check_type (v : str) : res str :=
  if existsb (str_eqb v) issue_types then Ok v
  else Raise (ValueError (py "pattern")).

(** [Field(..., max_length=n)] on a [str]. *)
Definition check_max_length (n : nat) (v : str) : res str :=
  if length v <=? n then Ok v else Raise (ValueError (py "max_length")).

(** [r'^[a-zA-Z0-9\-_\s]+$'] *)
Definition label_pattern : regex := Bol +++ Plus label_chr +++ Eol.

(** The [for label in v] loop of [validate_labels]; the entries are strings
    already, [List[str]] has been checked. *)
Fixpoint clean_labels (v : list str) : list str :=
  match v with
  | [] => []
  | label :: v' =>
      if negb (is_empty (strip label)) then
        let cleaned_label := lower (strip label) in
        if is_some (re_match label_pattern cleaned_label)
        then cleaned_label :: clean_labels v'
        else clean_labels v'
      else clean_labels v'
  end.

Definition validate_labels (v : list str) : res (list str) :=
  match v with
  | [] => Raise (ValueError (py "At least one suggested label is required"))
  | _ =>
      let cleaned_labels := clean_labels v in
      match cleaned_labels with
      | [] => Raise (ValueError (py "No valid labels found"))
      | _ => Ok (firstn 5 cleaned_labels)
      end
  end.

Definition validate_summary (v : str) : res str :=
  if is_empty v || is_empty (strip v) then
    Raise (ValueError (py "Summary cannot be empty"))
  else Ok (strip v).

Definition validate_potential_impact (v : str) : res str :=
  if is_empty v || is_empty (strip v) then
    Raise (ValueError (py "Potential impact cannot be empty"))
  else Ok (strip v).

(** [Field(..., min_items=1, max_items=5)] on a list. *)
Definition check_items (v : list str) : res (list str) :=
  if (1 <=? length v) && (length v <=? 5) then Ok v
  else Raise (ValueError (py "items")).

Definition and_then {A B : Type} (r : res A) (f : A -> res B) : res B :=
  match r with Ok a => f a | Raise e => Raise e end.

(** A required field of type [str]. *)
Definition get_str (key : string) (d : dict) : res str :=
  match dict_get (py key) d with
  | Some (JStr v) => Ok v
  | Some _ => Raise (ValueError (py "string_type"))
  | None => Raise (ValueError (py "missing"))
  end.
Arguments get_str key%_string d.

Fixpoint all_str (xs : list json) : option (list str) :=
  match xs with
  | [] => Some []
  | JStr v :: xs' =>
      match all_str xs' with
      | Some vs => Some (v :: vs)
      | None => None
      end
  | _ :: _ => None
  end.

(** A required field of type [List[str]]. *)
Definition get_str_list (key : string) (d : dict) : res (list str) :=
  match dict_get (py key) d with
  | Some (JArr xs) =>
      match all_str xs with
      | Some vs => Ok vs
      | None => Raise (ValueError (py "string_type"))
      end
  | Some _ => Raise (ValueError (py "list_type"))
  | None => Raise (ValueError (py "missing"))
  end.
Arguments get_str_list key%_string d.

Definition field_summary (d : dict) : res str :=
  and_then (and_then (get_str "summary" d) (check_max_length 200))
           validate_summary.

Definition field_type (d : dict) : res str :=
  and_then (get_str "type" d) check_type.

Definition field_priority_score (d : dict) : res str :=
  and_then (get_str "priority_score" d) (check_max_length 100).

Definition field_suggested_labels (d : dict) : res (list str) :=
  and_then (and_then (get_str_list "suggested_labels" d) check_items)
           validate_labels.

Definition field_potential_impact (d : dict) : res str :=
  and_then (and_then (get_str "potential_impact" d) (check_max_length 200))
           validate_potential_impact.

(** The construction of an [IssueAnalysis] from the keyword arguments [d]:
    every field is validated; keys that are not fields are ignored. *)
Definition IssueAnalysis_init (d : dict) : res IssueAnalysis :=
  match field_summary d, field_type d, field_priority_score d,
        field_suggested_labels d, field_potential_impact d with
  | Ok s, Ok t, Ok p, Ok l, Ok i =>
      Ok {| summary := s; type := t; priority_score := p;
            suggested_labels := l; potential_impact := i |}
  | r1, r2, r3, r4, r5 =>
      Raise (ValidationError
               (join (py ", ")
                  (failed "summary" r1 ++ failed "type" r2
                   ++ failed "priority_score" r3
                   ++ failed "suggested_labels" r4
                   ++ failed "potential_impact" r5)))
  end.

(** What an instance of [IssueAnalysis] satisfies: a non-empty summary and
    impact of at most 200 characters, one of the five types, a priority of at
    most 100 characters, one to five lowercase labels over the class. *)
Definition valid_label (l : str) : bool :=
  negb (is_empty l) && forallb label_chr l && str_eqb (lower l) l.

Definition valid_analysis (a : IssueAnalysis) : bool :=
  negb (is_empty (summary a)) && (length (summary a) <=? 200)
  && existsb (str_eqb (type a)) issue_types
  && (length (priority_score a) <=? 100)
  && (1 <=? length (suggested_labels a)) && (length (suggested_labels a) <=? 5)
  && forallb valid_label (suggested_labels a)
  && negb (is_empty (potential_impact a)) && (length (potential_impact a) <=? 200).

End Models.
Import Models.

(* ================================================================= *)
(** ** main.py: data, environment and effects *)

Module Main.

(** One entry of the [labels] array of an issue; [label_name] is [None] when
    the key [name] is absent. *)
Record label : Type := { label_name : option str }.

(** The JSON object of an issue, as [get_issue_data] returns it.  A field
    holds what the source reads with [issue_data.get(key, default)]; [title]
    is [None] when the key is absent, [body] is [None] when the key is absent
    or null. *)
Record RawIssue : Type := {
  title : option str;
  body : option str;
  state : str;
  labels : list label;
  comments : Z;
  comments_url : str;
  pull_request : bool
}.

(** A key of a JSON object: absent, null, or bound to a value. *)
Inductive jfield (A : Type) : Type :=
| Absent
| Null
| Val (a : A).
Arguments Absent {A}.
Arguments Null {A}.
Arguments Val {A} a.

(** One entry of the comments array: the key [user] (whose value, when it is
    an object, may or may not have a [login]) and the key [body]. *)
Record comment : Type := {
  user : jfield (jfield str);
  comment_body : jfield str
}.

(** The outcome of [requests.get]: a response with its status code and what
    [response.json()] gives, or an exception. *)
Inductive http_outcome (A : Type) : Type :=
| HttpResponse (status_code : Z) (json_body : res A)
| HttpRaises (e : exn).
Arguments HttpResponse {A} status_code json_body.
Arguments HttpRaises {A} e.

Definition headers := list (str * str).

(** The collaborators of the service: the process environment, the JSON
    decoder, the GitHub REST API and the text-generation model.
    [generate_content] gives the [text] of the model's response; the empty
    string stands for a response without text. *)
Record env : Type := {
  GITHUB_TOKEN : option str;
  json_loads : str -> option json;
  requests_get_issue : str -> headers -> http_outcome RawIssue;
  requests_get_comments : str -> headers -> http_outcome (list comment);
  generate_content : str -> res str
}.

(** The outbound calls, in the order they are attempted. *)
Inductive event : Type :=
| HttpGet (url : str) (h : headers)
| Generate (prompt : str).

(** A computation: its result and the outbound calls it attempted. *)
Definition M (A : Type) : Type := (res A * list event)%type.

Definition ret {A : Type} (a : A) : M A := (Ok a, []).
Definition raise {A : Type} (e : exn) : M A := (Raise e, []).
Definition lift {A : Type} (r : res A) : M A := (r, []).
Definition emit (ev : event) : M unit := (Ok tt, [ev]).

Definition bind {A B : Type} (m : M A) (f : A -> M B) : M B :=
  match m with
  | (Ok a, t) => let (r, t') := f a in (r, t ++ t')
  | (Raise e, t) => (Raise e, t)
  end.

(** [try: m  except Exception as e: h e] *)
Definition try_except {A : Type} (m : M A) (h : exn -> M A) : M A :=
  match m with
  | (Ok a, t) => (Ok a, t)
  | (Raise e, t) => let (r, t') := h e in (r, t ++ t')
  end.

Notation "x <- m ;; k" := (bind m (fun x => k))
  (at level 61, m at next level, right associativity).

Definition result {A : Type} (m : M A) : res A := fst m.
Definition trace {A : Type} (m : M A) : list event := snd m.

(* ----------------------------------------------------------------- *)
(** *** parse_github_url *)

Definition owner_repo : regex :=
  Grp (Plus not_slash) +++ Chr "/" +++ Grp (Plus not_slash)
  +++ Opt (Chr "/") +++ Eol.

Definition patterns : list regex :=
  [ Lit (py "https://github.com/") +++ owner_repo;
    Lit (py "http://github.com/") +++ owner_repo;
    Lit (py "github.com/") +++ owner_repo;
    Bol +++ owner_repo ].

Definition invalid_url_msg : str :=
  py "Invalid GitHub repository URL format. Expected: https://github.com/owner/repo".

(** The [for pattern in patterns] loop. *)
Fixpoint parse_loop (ps : list regex) (repo_url : str) : res (str * str) :=
  match ps with
  | [] => Raise (ValueError invalid_url_msg)
  | pattern :: ps' =>
      match re_match pattern repo_url with
      | Some m =>
          match groups m with
          | [owner; repo] =>
              let repo :=
                if endswith (py ".git") repo then slice_to_neg 4 repo else repo in
              Ok (owner, repo)
          | _ => Raise (ValueError (py "unpack"))
          end
      | None => parse_loop ps' repo_url
      end
  end.

Definition parse_github_url (repo_url : str) : res (str * str) :=
  if is_empty repo_url then
    Raise (ValueError (py "Repository URL cannot be empty"))
  else
    let repo_url := rstrip_chr "/" (strip repo_url) in
    parse_loop patterns repo_url.

(* ----------------------------------------------------------------- *)
(** *** The GitHub client *)

Definition get_github_headers (E : env) : headers :=
  let headers :=
    [ (py "Accept", py "application/vnd.github.v3+json");
      (py "User-Agent", py "GitHub-Issue-Analyzer/1.0") ] in
  match GITHUB_TOKEN E with
  | Some token =>
      if is_empty token then headers
      else headers ++ [(py "Authorization", py "token " ++ token)]
  | None => headers
  end.

Definition issue_url (owner repo : str) (issue_number : Z) : str :=
  py "https://api.github.com/repos/" ++ owner ++ py "/" ++ repo
  ++ py "/issues/" ++ str_of_int issue_number.

Definition get_issue_data (E : env) (owner repo : str) (issue_number : Z)
  : M RawIssue :=
  if (issue_number <=? 0)%Z then
    raise (ValueError (py "Issue number must be positive"))
  else
    let url := issue_url owner repo issue_number in
    let headers := get_github_headers E in
    try_except
      (_ <- emit (HttpGet url headers) ;;
       match requests_get_issue E url headers with
       | HttpRaises e => raise e
       | HttpResponse status_code json_body =>
           if (status_code =? 404)%Z then
             raise (ValueError
                      (py "Issue #" ++ str_of_int issue_number
                       ++ py " not found in repository " ++ owner ++ py "/" ++ repo))
           else if (status_code =? 403)%Z then
             raise (ValueError
                      (py "GitHub API rate limit exceeded or repository is private"))
           else if negb (status_code =? 200)%Z then
             raise (RequestException
                      (py "GitHub API returned status " ++ str_of_int status_code))
           else
             lift json_body
       end)
      (fun e =>
         match e with
         | Timeout => raise (RequestException (py "GitHub API request timed out"))
         | ConnectionError =>
             raise (RequestException (py "Failed to connect to GitHub API"))
         | _ => raise e
         end).

(** [comment.get("user", {}).get("login", "unknown")], as the f-string
    renders it. *)
Definition comment_author (c : comment) : res str :=
  match user c with
  | Absent => Ok (py "unknown")
  | Null => Raise AttributeError
  | Val Absent => Ok (py "unknown")
  | Val Null => Ok (py "None")
  | Val (Val login) => Ok login
  end.

(** [comment.get("body", "").strip()] *)
Definition comment_text (c : comment) : res str :=
  match comment_body c with
  | Absent => Ok (strip [])
  | Null => Raise AttributeError
  | Val b => Ok (strip b)
  end.

Definition render_comment (author body : str) : str :=
  py "Comment by " ++ author ++ py ":" ++ ["010"%char] ++ body.

(** The [for comment in comments_data] loop. *)
Fixpoint format_comments (comments_data : list comment)
  (formatted_comments : list str) : res (list str) :=
  match comments_data with
  | [] => Ok formatted_comments
  | comment :: rest =>
      and_then (comment_author comment) (fun author =>
      and_then (comment_text comment) (fun body =>
        if negb (is_empty body) then
          format_comments rest (formatted_comments ++ [render_comment author body])
        else format_comments rest formatted_comments))
  end.

Definition comment_separator : str :=
  ["010"%char] ++ py "---COMMENT---" ++ ["010"%char].

Definition get_issue_comments (E : env) (comments_url : str) : M str :=
  if is_empty comments_url then ret []
  else
    try_except
      (let headers := get_github_headers E in
       _ <- emit (HttpGet comments_url headers) ;;
       match requests_get_comments E comments_url headers with
       | HttpRaises e => raise e
       | HttpResponse status_code json_body =>
           if negb (status_code =? 200)%Z then ret []
           else
             comments_data <- lift json_body ;;
             match comments_data with
             | [] => ret []
             | _ =>
                 formatted_comments <- lift (format_comments comments_data []) ;;
                 ret (join comment_separator formatted_comments)
             end
       end)
      (fun e => ret []).

(* ----------------------------------------------------------------- *)
(** *** The prompt *)

Definition squote : ascii := ascii_of_nat 39.
Definition nl : str := ["010"%char].

Definition hex_digit (n : N) : ascii :=
  if (n <? 10)%N then ascii_of_N (48 + n) else ascii_of_N (87 + n).

(** [c.isprintable()] on U+0000..U+00FF. *)
Definition isprintable (c : ascii) : bool :=
  let n := code c in
  (((32 <=? n) && (n <=? 126)) || ((161 <=? n) && negb (n =? 173)))%N.

Definition repr_chr (quote c : ascii) : str :=
  let n := code c in
  if chr_eqb c quote || chr_eqb c bslash then [bslash; c]
  else if (n =? 9)%N then [bslash; "t"%char]
  else if (n =? 10)%N then [bslash; "n"%char]
  else if (n =? 13)%N then [bslash; "r"%char]
  else if isprintable c then [c]
  else [bslash; "x"%char; hex_digit (n / 16); hex_digit (n mod 16)].

(** [repr(s)] *)
Definition repr_str (s : str) : str :=
  let quote :=
    if existsb (chr_eqb squote) s && negb (existsb (chr_eqb dq) s)
    then dq else squote in
  [quote] ++ flat_map (repr_chr quote) s ++ [quote].

(** The text an f-string gives for a list of strings. *)
Definition repr_list (xs : list str) : str :=
  py "[" ++ join (py ", ") (map repr_str xs) ++ py "]".

Definition quoted (s : string) : str := [dq] ++ py s ++ [dq].
Arguments quoted s%_string.

Definition build_prompt (title body state : str) (existing_labels : list str)
  (comments : str) : str :=
  py "You are an expert GitHub issue analyst. Analyze the following issue and provide a structured JSON response." ++ nl
  ++ nl
  ++ py "ISSUE DETAILS:" ++ nl
  ++ py "Title: " ++ title ++ nl
  ++ py "Body: " ++ str_or body (py "No description provided") ++ nl
  ++ py "Current State: " ++ state ++ nl
  ++ py "Existing Labels: " ++ repr_list existing_labels ++ nl
  ++ py "Comments: " ++ str_or comments (py "No comments") ++ nl
  ++ nl
  ++ py "Please analyze this issue and respond with ONLY a valid JSON object in this exact format:" ++ nl
  ++ py "{" ++ nl
  ++ py "  " ++ quoted "summary" ++ py ": "
     ++ quoted "A clear one-sentence summary of the issue" ++ py "," ++ nl
  ++ py "  " ++ quoted "type" ++ py ": "
     ++ quoted "bug|feature_request|documentation|question|other" ++ py "," ++ nl
  ++ py "  " ++ quoted "priority_score" ++ py ": "
     ++ quoted "1-5 score with brief justification (e.g., '3 - Moderate impact on user experience')"
     ++ py "," ++ nl
  ++ py "  " ++ quoted "suggested_labels" ++ py ": ["
     ++ quoted "2-3 relevant labels" ++ py "]," ++ nl
  ++ py "  " ++ quoted "potential_impact" ++ py ": "
     ++ quoted "Brief description of impact on users (especially for bugs)" ++ nl
  ++ py "}" ++ nl
  ++ nl
  ++ py "Guidelines:" ++ nl
  ++ py "- Summary should be concise but informative" ++ nl
  ++ py "- Type must be exactly one of: bug, feature_request, documentation, question, other" ++ nl
  ++ py "- Priority: 1=low, 2=minor, 3=moderate, 4=high, 5=critical" ++ nl
  ++ py "- Suggested labels should be practical and commonly used in GitHub projects" ++ nl
  ++ py "- For non-bugs, potential_impact can describe general user benefit" ++ nl
  ++ nl
  ++ py "Respond with ONLY the JSON object, no additional text.".

(* ----------------------------------------------------------------- *)
(** *** The fallback analysis *)

Definition bug_words : list str :=
  [py "bug"; py "error"; py "issue"; py "broken"; py "not working"].
Definition feature_words : list str :=
  [py "feature"; py "add"; py "support"; py "enhancement"].
Definition doc_words : list str :=
  [py "doc"; py "documentation"; py "readme"].
Definition question_prefixes : list str :=
  [py "how"; py "why"; py "what"; py "?"].

(** [any(word in text for word in words)] *)
Definition any_in (words : list str) (text : str) : bool :=
  existsb (fun word => contains word text) words.

Definition fixed_priority : str :=
  py "3 - Unable to determine exact priority, defaulting to moderate".
Definition fixed_impact : str :=
  py "Impact assessment requires manual review due to processing error".

Definition create_fallback_analysis (title body : str)
  (existing_labels : list str) : dict :=
  let title_lower := lower title in
  let body_lower := lower (str_or body []) in
  let issue_type :=
    if any_in bug_words title_lower then py "bug"
    else if any_in feature_words title_lower then py "feature_request"
    else if any_in doc_words title_lower then py "documentation"
    else if startswith_any question_prefixes title_lower then py "question"
    else py "other" in
  [ (py "summary",
     JStr (py "Issue regarding: " ++ slice_to 100 title
           ++ (if 100 <? length title then py "..." else [])));
    (py "type", JStr issue_type);
    (py "priority_score", JStr fixed_priority);
    (py "suggested_labels",
     JArr (map JStr (match existing_labels with
                     | [] => [py "needs-triage"]
                     | _ => firstn 3 existing_labels
                     end)));
    (py "potential_impact", JStr fixed_impact) ].

(* ----------------------------------------------------------------- *)
(** *** analyze_with_llm *)

(** [r'\{.*\}'] under [re.DOTALL]; the group is the whole match. *)
Definition json_pattern : regex :=
  Grp (Chr "{" +++ Star any_chr +++ Chr "}").

(** The candidate text handed to [json.loads]. *)
Definition extract_json (response_text : str) : str :=
  match re_search json_pattern response_text with
  | Some json_match => group json_match
  | None => response_text
  end.

(** The construction of an [IssueAnalysis] from [**analysis_data]: a value
    that is not a mapping raises [TypeError]. *)
Definition IssueAnalysis_kwargs (analysis_data : json) : res IssueAnalysis :=
  match analysis_data with
  | JObj d => IssueAnalysis_init d
  | _ => Raise TypeError
  end.

Definition get_name (l : label) : str :=
  match label_name l with Some n => n | None => [] end.

Definition analyze_with_llm (E : env) (title body comments : str)
  (labels : list label) (state : str) : M IssueAnalysis :=
  let existing_labels := map get_name labels in
  let prompt := build_prompt title body state existing_labels comments in
  try_except
    (_ <- emit (Generate prompt) ;;
     text <- lift (generate_content E prompt) ;;
     if is_empty text then
       raise (ValueError (py "Empty response from AI model"))
     else
       let response_text := strip text in
       let response_text := extract_json response_text in
       let analysis_data :=
         match json_loads E response_text with
         | Some v => v
         | None => JObj (create_fallback_analysis title body existing_labels)
         end in
       lift (IssueAnalysis_kwargs analysis_data))
    (fun e =>
       lift (IssueAnalysis_kwargs
               (JObj (create_fallback_analysis title body existing_labels)))).

(* ----------------------------------------------------------------- *)
(** *** The endpoint *)

(** The [detail] of an [HTTPException]: [str(e)] of the exception caught, or
    a fixed text. *)
Inductive detail : Type :=
| StrOf (e : exn)
| Text (s : str).

Inductive http_exception : Type :=
| HTTPException (status_code : Z) (d : detail).

(** What the handler gives back: the analysis, or the [HTTPException] it
    raises. *)
Definition handled : Type := (IssueAnalysis + http_exception)%type.

Definition analyze_issue (E : env) (data : IssueRequest) : handled * list event :=
  let m : M IssueAnalysis :=
    p <- lift (parse_github_url (repo_url data)) ;;
    let (owner, repo) := (p : str * str) in
    issue_data <- get_issue_data E owner repo (issue_number data) ;;
    _ <- lift (match title issue_data with
               | Some t => Ok t
               | None => Raise (KeyError (py "title"))
               end) ;;
    comments <- (if (0 <? comments issue_data)%Z
                 then get_issue_comments E (comments_url issue_data)
                 else ret []) ;;
    analyze_with_llm E
      (match title issue_data with Some t => t | None => [] end)
      (match body issue_data with Some b => b | None => [] end)
      comments
      (labels issue_data)
      (state issue_data)
  in
  match m with
  | (Ok analysis_result, t) => (inl analysis_result, t)
  | (Raise e, t) =>
      if is_ValueError e then (inr (HTTPException 400 (StrOf e)), t)
      else if is_RequestException e then
        (inr (HTTPException 502 (Text (py "Failed to fetch data from GitHub API"))), t)
      else
        (inr (HTTPException 500 (Text (py "Internal server error during analysis"))), t)
  end.

(** The answer of the service to a request. *)
Inductive response : Type :=
| Success (a : IssueAnalysis)                 (* 200 *)
| Failure (status_code : Z) (d : detail)      (* an HTTPException *)
| Unprocessable (e : exn).                    (* 422: the body is not an IssueRequest *)

Definition status (r : response) : Z :=
  match r with
  | Success _ => 200
  | Failure status_code _ => status_code
  | Unprocessable _ => 422
  end.

(** [POST /analyze]: the framework builds the [IssueRequest] from the body and
    answers 422 itself when that fails; otherwise it calls the handler. *)
Definition post_analyze (E : env) (url : str) (number : Z)
  : response * list event :=
  match IssueRequest_init url number with
  | Raise e => (Unprocessable e, [])
  | Ok data =>
      match analyze_issue E data with
      | (inl a, t) => (Success a, t)
      | (inr (HTTPException status_code d), t) => (Failure status_code d, t)
      end
  end.

End Main.
Import Main.

(* ================================================================= *)
(** ** Specification-level notions *)

Module Spec.

(** [matches r bos w rest]: the pattern [r] can consume [w] when [rest]
    follows and [bos] tells whether [w] starts the subject. *)
Inductive matches : regex -> bool -> str -> str -> Prop :=
| M_Eps bos rest : matches Eps bos [] rest
| M_Chr c bos rest : matches (Chr c) bos [c] rest
| M_Cls p c bos rest : p c = true -> matches (Cls p) bos [c] rest
| M_Star p w bos rest : forallb p w = true -> matches (Star p) bos w rest
| M_Opt_some r w bos rest : matches r bos w rest -> matches (Opt r) bos w rest
| M_Opt_none r bos rest : matches (Opt r) bos [] rest
| M_Grp r w bos rest : matches r bos w rest -> matches (Grp r) bos w rest
| M_Cat r1 r2 w1 w2 bos rest :
    matches r1 bos w1 (w2 ++ rest) ->
    matches r2 (bos && is_empty w1) w2 rest ->
    matches (Cat r1 r2) bos (w1 ++ w2) rest
| M_Bol rest : matches Bol true [] rest
| M_Eol bos rest : rest = [] \/ rest = ["010"%char] -> matches Eol bos [] rest.

(** [sub] occurs in [s]. *)
Definition occurs (sub s : str) : Prop :=
  exists pre post, s = pre ++ sub ++ post.

(** The title, lowercased, contains one of the words. *)
Definition mentions (words : list str) (title : str) : Prop :=
  exists word, In word words /\ occurs word (lower title).

(** The title, lowercased, starts with one of the prefixes. *)
Definition opens_with (prefixes : list str) (title : str) : Prop :=
  exists p rest, In p prefixes /\ lower title = p ++ rest.

(** The rules of the heuristic classifier, in their order. *)
Inductive heuristic_type (title : str) : str -> Prop :=
| H_bug :
    mentions bug_words title -> heuristic_type title (py "bug")
| H_feature :
    ~ mentions bug_words title -> mentions feature_words title ->
    heuristic_type title (py "feature_request")
| H_doc :
    ~ mentions bug_words title -> ~ mentions feature_words title ->
    mentions doc_words title ->
    heuristic_type title (py "documentation")
| H_question :
    ~ mentions bug_words title -> ~ mentions feature_words title ->
    ~ mentions doc_words title -> opens_with question_prefixes title ->
    heuristic_type title (py "question")
| H_other :
    ~ mentions bug_words title -> ~ mentions feature_words title ->
    ~ mentions doc_words title -> ~ opens_with question_prefixes title ->
    heuristic_type title (py "other").

(** The keyword sets of the classifier as the specification lists them,
    written out here and not taken from the code. *)
Definition bug_keywords : list str :=
  [py "bug"; py "error"; py "issue"; py "broken"; py "not working"].
Definition feature_keywords : list str :=
  [py "feature"; py "add"; py "support"; py "enhancement"].
Definition documentation_keywords : list str :=
  [py "doc"; py "documentation"; py "readme"].
Definition question_openers : list str :=
  [py "how"; py "why"; py "what"; py "?"].

(** The rules of the specification over these sets: evaluated in order, the
    first that matches wins, on the lowercased title. *)
Inductive classified (title : str) : str -> Prop :=
| K_bug :
    mentions bug_keywords title -> classified title (py "bug")
| K_feature :
    ~ mentions bug_keywords title -> mentions feature_keywords title ->
    classified title (py "feature_request")
| K_documentation :
    ~ mentions bug_keywords title -> ~ mentions feature_keywords title ->
    mentions documentation_keywords title ->
    classified title (py "documentation")
| K_question :
    ~ mentions bug_keywords title -> ~ mentions feature_keywords title ->
    ~ mentions documentation_keywords title ->
    opens_with question_openers title ->
    classified title (py "question")
| K_other :
    ~ mentions bug_keywords title -> ~ mentions feature_keywords title ->
    ~ mentions documentation_keywords title ->
    ~ opens_with question_openers title ->
    classified title (py "other").

(** The accepted forms of a repository URL. *)
Inductive scheme : Type := Https | Http | Host | Bare.

Definition scheme_prefix (sc : scheme) : str :=
  match sc with
  | Https => py "https://github.com/"
  | Http => py "http://github.com/"
  | Host => py "github.com/"
  | Bare => []
  end.

Definition url_form (sc : scheme) (owner repo : str) (git slash : bool) : str :=
  scheme_prefix sc ++ owner ++ py "/" ++ repo
  ++ (if git then py ".git" else []) ++ (if slash then py "/" else []).

(** An OWNER or REPO of the specification: not empty, no slash. *)
Definition name_ok (n : str) : Prop := n <> [] /\ ~ In "/"%char n.

(** The first, the last character is not white space. *)
Definition starts_clean (s : str) : bool :=
  match s with
  | c :: _ => negb (isspace c)
  | [] => false
  end.

Definition ends_clean (s : str) : bool := starts_clean (rev s).

(** The label a kept entry becomes, and the entries that are kept. *)
Definition cleaned (l : str) : str := lower (strip l).

Definition keeps (l : str) : bool :=
  negb (is_empty (strip l)) && forallb label_chr (cleaned l).

Definition kept_labels (v : list str) : list str := map cleaned (filter keeps v).

(** A comment as the specification renders it. *)
Definition author_of (c : comment) : str :=
  match user c with
  | Val (Val login) => login
  | Val Null => py "None"
  | _ => py "unknown"
  end.

Definition text_of (c : comment) : str :=
  match comment_body c with
  | Val b => strip b
  | _ => []
  end.

Definition rendered (c : comment) : str :=
  py "Comment by " ++ author_of c ++ py ":" ++ ["010"%char] ++ text_of c.

Definition has_text (c : comment) : bool := negb (is_empty (text_of c)).

(** No key of the comment is null. *)
Definition well_formed (c : comment) : Prop :=
  user c <> Null /\ comment_body c <> Null.

(** The repository name without its [.git] suffix. *)
Definition strip_git (repo : str) : str :=
  if endswith (py ".git") repo then slice_to_neg 4 repo else repo.

(** The number of slashes of a text. *)
Definition slashes (s : str) : nat := count_occ ascii_dec s "/"%char.

(** The labels the fallback analysis suggests. *)
Definition fallback_labels (existing_labels : list str) : list str :=
  match existing_labels with
  | [] => [py "needs-triage"]
  | _ => firstn 3 existing_labels
  end.

End Spec.
Import Spec.

(* ================================================================= *)
(** ** Inputs of the examples *)

Module Examples.

(** Six labels, each of them valid, and a candidate analysis that carries
    them. *)
Definition six_labels : list str :=
  [py "a"; py "b"; py "c"; py "d"; py "e"; py "f"].

Definition candidate_six : dict :=
  [ (py "summary", JStr (py "x"));
    (py "type", JStr (py "bug"));
    (py "priority_score", JStr (py "1"));
    (py "suggested_labels", JArr (map JStr six_labels));
    (py "potential_impact", JStr (py "y")) ].

(** The reply of the specification: prose, then a JSON object. *)
Definition example_json : str :=
  py "{" ++ quoted "summary" ++ py ":" ++ quoted "x" ++ py ","
  ++ quoted "type" ++ py ":" ++ quoted "bug" ++ py ","
  ++ quoted "priority_score" ++ py ":" ++ quoted "1" ++ py ","
  ++ quoted "suggested_labels" ++ py ":[" ++ quoted "bug" ++ py "],"
  ++ quoted "potential_impact" ++ py ":" ++ quoted "y" ++ py "}".

Definition example_reply : str := py "Here is the result: " ++ example_json.


Definition example_analysis : IssueAnalysis :=
  {| summary := py "x"; type := py "bug"; priority_score := py "1";
     suggested_labels := [py "bug"]; potential_impact := py "y" |}.





(** An issue whose only label has a colon in its name, and its comments. *)
Definition example_issue : RawIssue :=
  {| title := Some (py "Crash on start"); body := None; state := py "open";
     labels := [ {| label_name := Some (py "type: bug") |} ];
     comments := 2; comments_url := py "https://api.github.com/c";
     pull_request := false |}.

Definition example_comments : list comment :=
  [ {| user := Val (Val (py "bob")); comment_body := Val (py " hi ") |};
    {| user := Absent; comment_body := Val (py "  ") |};
    {| user := Val Absent; comment_body := Val (py "yo") |} ].

(** An environment in which the model answers [reply] (or raises) and the
    issue fetch answers with [status_code]. *)
Definition example_env (reply : res str) (status_code : Z) : env :=
  {| GITHUB_TOKEN := None;
     json_loads := Json.loads;
     requests_get_issue := fun _ _ => HttpResponse status_code (Ok example_issue);
     requests_get_comments := fun _ _ => HttpResponse 200 (Ok example_comments);
     generate_content := fun _ => reply |}.

Definition react_url : str := py "https://github.com/facebook/react".

Definition rate_limit_msg : str :=
  py "GitHub API rate limit exceeded or repository is private".

Definition colon_labels : list label :=
  [ {| label_name := Some (py "type: bug") |} ].

Definition model_down : res str :=
  Raise (OtherException (py "model unreachable")).

End Examples.
Import Examples.

(* ================================================================= *)
(** ** Notions for the rest of the code *)

Module Notions.

(** [captures r bos w rest gs]: the pattern [r] can consume [w] when [rest]
    follows, closing the groups [gs] on the way. *)
Inductive captures : regex -> bool -> str -> str -> list str -> Prop :=
| C_Eps bos rest : captures Eps bos [] rest []
| C_Chr c bos rest : captures (Chr c) bos [c] rest []
| C_Cls p c bos rest : p c = true -> captures (Cls p) bos [c] rest []
| C_Star p w bos rest : forallb p w = true -> captures (Star p) bos w rest []
| C_Opt_some r w bos rest gs :
    captures r bos w rest gs -> captures (Opt r) bos w rest gs
| C_Opt_none r bos rest : captures (Opt r) bos [] rest []
| C_Grp r w bos rest gs :
    captures r bos w rest gs -> captures (Grp r) bos w rest (gs ++ [w])
| C_Cat r1 r2 w1 w2 bos rest gs1 gs2 :
    captures r1 bos w1 (w2 ++ rest) gs1 ->
    captures r2 (bos && is_empty w1) w2 rest gs2 ->
    captures (Cat r1 r2) bos (w1 ++ w2) rest (gs1 ++ gs2)
| C_Bol rest : captures Bol true [] rest []
| C_Eol bos rest :
    rest = [] \/ rest = ["010"%char] -> captures Eol bos [] rest [].

(** The text the parser matches its patterns against. *)
Definition normalized (repo_url : str) : str :=
  rstrip_chr "/" (strip repo_url).

(** The summary of the fallback analysis. *)
Definition fallback_summary (title : str) : str :=
  py "Issue regarding: " ++ slice_to 100 title
  ++ (if 100 <? length title then py "..." else []).

(** The environment [E] with another comments endpoint. *)
Definition with_comments (E : env)
  (f : str -> headers -> http_outcome (list comment)) : env :=
  {| GITHUB_TOKEN := GITHUB_TOKEN E;
     json_loads := json_loads E;
     requests_get_issue := requests_get_issue E;
     requests_get_comments := f;
     generate_content := generate_content E |}.

(** A comments fetch that gives nothing to format: an exception, a status
    other than 200, a body that cannot be read, an empty list, or a comment
    with a null user or body. *)
Definition comments_unavailable (o : http_outcome (list comment)) : Prop :=
  match o with
  | HttpRaises _ => True
  | HttpResponse _ (Raise _) => True
  | HttpResponse status_code (Ok cs) =>
      status_code <> 200%Z \/ cs = [] \/ ~ Forall well_formed cs
  end.

(** An issue without comments. *)
Definition no_comments : str -> headers -> http_outcome (list comment) :=
  fun _ _ => HttpResponse 200 (Ok []).

(** The message of the ValueError for a 404. *)
Definition not_found_msg (owner repo : str) (n : Z) : str :=
  py "Issue #" ++ str_of_int n ++ py " not found in repository "
  ++ owner ++ py "/" ++ repo.

(** The two error bodies with a fixed text. *)
Definition bad_gateway : detail :=
  Text (py "Failed to fetch data from GitHub API").
Definition internal_error : detail :=
  Text (py "Internal server error during analysis").

(** The [HTTPException] that the handler raises for an exception caught. *)
Definition handled_exn (e : exn) : http_exception :=
  if is_ValueError e then HTTPException 400 (StrOf e)
  else if is_RequestException e then HTTPException 502 bad_gateway
  else HTTPException 500 internal_error.

(** The keys of an analysis, and those bound to a text. *)
Definition analysis_keys : list str :=
  [py "summary"; py "type"; py "priority_score"; py "suggested_labels";
   py "potential_impact"].

Definition text_keys : list str :=
  [py "summary"; py "type"; py "priority_score"; py "potential_impact"].

(** The example environment with another issue. *)
Definition env_with_issue (issue : RawIssue) : env :=
  {| GITHUB_TOKEN := Some (py "t0ken");
     json_loads := Json.loads;
     requests_get_issue := fun _ _ => HttpResponse 200 (Ok issue);
     requests_get_comments := fun _ _ => HttpResponse 200 (Ok example_comments);
     generate_content := fun _ => Ok example_reply |}.

Definition untitled_issue : RawIssue :=
  {| title := None; body := Some (py "text"); state := py "open";
     labels := []; comments := 0; comments_url := [];
     pull_request := false |}.

End Notions.
Import Notions.

(* ================================================================= *)
(** ** Facts about strings *)

Section StrFacts.

Lemma chr_eqb_eq (a b : ascii) : chr_eqb a b = true <-> a = b.
Proof. unfold chr_eqb. apply Ascii.eqb_eq. Qed.

Lemma chr_eqb_refl (a : ascii) : chr_eqb a a = true.
Proof. apply chr_eqb_eq. reflexivity. Qed.

Lemma chr_eqb_neq (a b : ascii) : chr_eqb a b = false <-> a <> b.
Proof. unfold chr_eqb. apply Ascii.eqb_neq. Qed.

Lemma str_eqb_eq (a b : str) : str_eqb a b = true <-> a = b.
Proof.
  revert b. induction a as [|x a IH]; intros [|y b]; simpl; split; intro H;
    try reflexivity; try discriminate.
  - apply andb_true_iff in H as [Hx Hr].
    apply chr_eqb_eq in Hx. apply IH in Hr. now subst.
  - injection H as -> ->. rewrite chr_eqb_refl. simpl. now apply IH.
Qed.

Lemma str_eqb_refl (a : str) : str_eqb a a = true.
Proof. now apply str_eqb_eq. Qed.

Lemma is_empty_true (s : str) : is_empty s = true <-> s = [].
Proof. destruct s; simpl; split; intro H; congruence. Qed.

Lemma is_empty_false (s : str) : is_empty s = false <-> s <> [].
Proof. destruct s; simpl; split; intro H; congruence. Qed.

Lemma startswith_app (p t : str) : startswith p (p ++ t) = true.
Proof.
  induction p as [|a p IH]; simpl.
  - reflexivity.
  - now rewrite chr_eqb_refl.
Qed.

Lemma startswith_spec (p s : str) :
  startswith p s = true <-> exists t, s = p ++ t.
Proof.
  split.
  - revert s. induction p as [|a p IH]; intros s H.
    + now exists s.
    + destruct s as [|b s]; simpl in H; [discriminate|].
      apply andb_true_iff in H as [Hab Hr].
      apply chr_eqb_eq in Hab. subst b.
      destruct (IH _ Hr) as [t ->]. now exists t.
  - intros [t ->]. apply startswith_app.
Qed.

Lemma contains_head (sub s : str) :
  startswith sub s = true -> contains sub s = true.
Proof. intro H. destruct s; simpl; now rewrite H. Qed.

Lemma contains_spec (sub s : str) : contains sub s = true <-> occurs sub s.
Proof.
  unfold occurs. split.
  - induction s as [|c s IH]; simpl; intro H.
    + rewrite orb_false_r in H. apply startswith_spec in H as [t Ht].
      exists [], t. exact Ht.
    + apply orb_true_iff in H as [H|H].
      * apply startswith_spec in H as [t Ht]. exists [], t. exact Ht.
      * destruct (IH H) as (pre & post & ->). now exists (c :: pre), post.
  - intros (pre & post & ->). induction pre as [|c pre IH].
    + simpl. apply contains_head. apply startswith_app.
    + simpl. rewrite IH. apply orb_true_r.
Qed.

Lemma any_in_spec (words : list str) (title : str) :
  any_in words (lower title) = true <-> mentions words title.
Proof.
  unfold any_in, mentions. rewrite existsb_exists.
  split; intros (w & Hin & H); exists w; split; auto; now apply contains_spec.
Qed.

Lemma startswith_any_spec (ps : list str) (title : str) :
  startswith_any ps (lower title) = true <-> opens_with ps title.
Proof.
  unfold startswith_any, opens_with. rewrite existsb_exists. split.
  - intros (p & Hin & H). apply startswith_spec in H as [t Ht]. now exists p, t.
  - intros (p & t & Hin & H). exists p. split; auto.
    apply startswith_spec. now exists t.
Qed.

Lemma lstrip_with_head (p : ascii -> bool) (c : ascii) (s : str) :
  p c = false -> lstrip_with p (c :: s) = c :: s.
Proof. intro H. simpl. now rewrite H. Qed.

Lemma lstrip_with_app_stop (p : ascii -> bool) (w : str) (c : ascii) (t : str) :
  forallb p w = true -> p c = false ->
  lstrip_with p (w ++ c :: t) = c :: t.
Proof.
  intros Hw Hc. induction w as [|x w IH]; simpl in *.
  - now rewrite Hc.
  - apply andb_true_iff in Hw as [Hx Hw]. rewrite Hx. now apply IH.
Qed.

Lemma lstrip_with_all (p : ascii -> bool) (w : str) :
  forallb p w = true -> lstrip_with p w = [].
Proof.
  induction w as [|x w IH]; simpl; intro H; [reflexivity|].
  apply andb_true_iff in H as [Hx Hw]. rewrite Hx. now apply IH.
Qed.

Lemma rstrip_with_last (p : ascii -> bool) (s : str) (c : ascii) :
  p c = false -> rstrip_with p (s ++ [c]) = s ++ [c].
Proof.
  intro H. unfold rstrip_with. rewrite rev_app_distr. simpl.
  rewrite H. simpl. now rewrite rev_involutive.
Qed.

Lemma rstrip_with_drop (p : ascii -> bool) (s : str) (c : ascii) :
  p c = true -> rstrip_with p (s ++ [c]) = rstrip_with p s.
Proof.
  intro H. unfold rstrip_with. rewrite rev_app_distr. simpl. now rewrite H.
Qed.

Lemma rstrip_with_nil (p : ascii -> bool) : rstrip_with p [] = [].
Proof. reflexivity. Qed.

(** A string is either empty or ends with a character. *)
Lemma str_last_cases (s : str) : s = [] \/ exists s' c, s = s' ++ [c].
Proof.
  destruct (rev s) as [|c r] eqn:E.
  - left. apply (f_equal (@rev ascii)) in E. now rewrite rev_involutive in E.
  - right. exists (rev r), c.
    apply (f_equal (@rev ascii)) in E. now rewrite rev_involutive in E.
Qed.

Lemma endswith_app (suf w : str) : endswith suf (w ++ suf) = true.
Proof. unfold endswith. rewrite rev_app_distr. apply startswith_app. Qed.

Lemma endswith_spec (suf s : str) :
  endswith suf s = true <-> exists w, s = w ++ suf.
Proof.
  unfold endswith. rewrite startswith_spec. split.
  - intros [t Ht]. exists (rev t).
    apply (f_equal (@rev ascii)) in Ht.
    rewrite rev_involutive, rev_app_distr, rev_involutive in Ht. exact Ht.
  - intros [w ->]. exists (rev w). now rewrite rev_app_distr.
Qed.

Lemma slice_to_neg_app (w suf : str) :
  slice_to_neg (length suf) (w ++ suf) = w.
Proof.
  unfold slice_to_neg. rewrite length_app.
  replace (length w + length suf - length suf) with (length w) by lia.
  rewrite firstn_app, Nat.sub_diag, firstn_all. simpl. apply app_nil_r.
Qed.

End StrFacts.

(* ================================================================= *)
(** ** Facts about the matcher *)

Section ReFacts.

Variable A : Type.
Implicit Types (k : str -> str -> option A) (K : cont A).

Lemma star_sound p s k x :
  star p s k = Some x ->
  exists w t, s = w ++ t /\ forallb p w = true /\ k w t = Some x.
Proof.
  revert k. induction s as [|c s IH]; intros k H; simpl in H.
  - exists [], []. auto.
  - destruct (p c) eqn:Hc.
    + destruct (star p s (fun w t => k (c :: w) t)) eqn:E.
      * injection H as ->.
        apply IH in E as (w & t & -> & Hw & Hk).
        exists (c :: w), t. simpl. rewrite Hc, Hw. auto.
      * exists [], (c :: s). auto.
    + exists [], (c :: s). auto.
Qed.

Lemma star_none p s k :
  (forall w t, s = w ++ t -> k w t = None) -> star p s k = None.
Proof.
  revert k. induction s as [|c s IH]; intros k H; simpl.
  - now apply H.
  - destruct (p c).
    + rewrite IH.
      * now apply H.
      * intros w t ->. now apply H.
    + now apply H.
Qed.

Lemma star_skip p a t k x :
  forallb p a = true ->
  star p t (fun w t' => k (a ++ w) t') = Some x ->
  star p (a ++ t) k = Some x.
Proof.
  revert k. induction a as [|c a IH]; intros k Ha H; simpl in *.
  - exact H.
  - apply andb_true_iff in Ha as [Hc Ha]. rewrite Hc.
    now rewrite (IH (fun w t' => k (c :: w) t') Ha H).
Qed.

Lemma star_all p a k x :
  forallb p a = true -> k a [] = Some x -> star p a k = Some x.
Proof.
  intros Ha H. rewrite <- (app_nil_r a). apply star_skip; auto.
  simpl. now rewrite app_nil_r.
Qed.

Lemma star_stop p c t k : p c = false -> star p (c :: t) k = k [] (c :: t).
Proof. intro H. simpl. now rewrite H. Qed.

Lemma run_sound r :
  forall bos s g K x,
    run r bos s g K = Some x ->
    exists w t g', s = w ++ t /\ matches r bos w t /\ K w t g' = Some x.
Proof.
  induction r as [| c | p | p | r IH | r IH | r1 IH1 r2 IH2 | |];
    intros bos s g K x H; simpl in H.
  - exists [], s, g. repeat split; auto. constructor.
  - destruct s as [|y s]; [discriminate|].
    destruct (chr_eqb y c) eqn:E; [|discriminate].
    apply chr_eqb_eq in E. subst y.
    exists [c], s, g. repeat split; auto. constructor.
  - destruct s as [|y s]; [discriminate|].
    destruct (p y) eqn:E; [|discriminate].
    exists [y], s, g. repeat split; auto. now constructor.
  - apply star_sound in H as (w & t & -> & Hw & Hk).
    exists w, t, g. repeat split; auto. now constructor.
  - destruct (run r bos s g K) eqn:E.
    + injection H as ->.
      apply IH in E as (w & t & g' & -> & Hm & Hk).
      exists w, t, g'. repeat split; auto.
      now apply M_Opt_some.
    + exists [], s, g. repeat split; auto. apply M_Opt_none.
  - apply IH in H as (w & t & g' & -> & Hm & Hk).
    exists w, t, (g' ++ [w]). repeat split; auto. now constructor.
  - apply IH1 in H as (w1 & t1 & g1 & -> & Hm1 & H).
    apply IH2 in H as (w2 & t2 & g2 & -> & Hm2 & H).
    exists (w1 ++ w2), t2, g2. repeat split; auto.
    + now rewrite app_assoc.
    + now constructor.
  - destruct bos; [|discriminate].
    exists [], s, g. repeat split; auto. constructor.
  - exists [], s, g. repeat split; auto.
    + constructor. destruct s as [|c [|c' s]]; auto; try discriminate.
      destruct (chr_eqb c "010"%char) eqn:E; [|discriminate].
      apply chr_eqb_eq in E. subst. auto.
    + destruct s as [|c [|c' s]]; auto; try discriminate.
      destruct (chr_eqb c "010"%char); [auto|discriminate].
Qed.

Lemma run_Lit w :
  forall bos s g K, run (Lit w) bos (w ++ s) g K = K w s g.
Proof.
  induction w as [|c w IH]; intros bos s g K; simpl.
  - reflexivity.
  - rewrite chr_eqb_refl. now rewrite IH.
Qed.

End ReFacts.

Lemma matches_Lit w : forall bos x rest, matches (Lit w) bos x rest -> x = w.
Proof.
  induction w as [|c w IH]; intros bos x rest H; simpl in H.
  - now inversion H.
  - inversion H as [| | | | | | |r1 r2 w1 w2 b rs H1 H2| |]; subst.
    inversion H1; subst. simpl. f_equal. eapply IH; eauto.
Qed.

(** What [re.match] and [re.search] find is text of the subject that the
    pattern matches. *)
Lemma re_match_sound r s m :
  re_match r s = Some m ->
  exists t, s = group m ++ t /\ matches r true (group m) t.
Proof.
  unfold re_match. intro H.
  apply run_sound in H as (w & t & g' & -> & Hm & Hk).
  unfold accept in Hk. injection Hk as <-. simpl. now exists t.
Qed.

Lemma search_from_sound r :
  forall s bos m,
    search_from r bos s = Some m ->
    exists a t b, s = a ++ group m ++ t /\ matches r b (group m) t.
Proof.
  induction s as [|c s IH]; intros bos m H; simpl in H.
  - destruct (run r bos [] [] accept) eqn:E; [|discriminate].
    injection H as ->.
    apply run_sound in E as (w & t & g' & Hs & Hm & Hk).
    unfold accept in Hk. injection Hk as <-. simpl.
    exists [], t, bos. auto.
  - destruct (run r bos (c :: s) [] accept) eqn:E.
    + injection H as ->.
      apply run_sound in E as (w & t & g' & Hs & Hm & Hk).
      unfold accept in Hk. injection Hk as <-. simpl.
      exists [], t, bos. auto.
    + apply IH in H as (a & t & b & -> & Hm).
      exists (c :: a), t, b. auto.
Qed.

Ltac inv_matches :=
  repeat match goal with
  | H : matches (Cat _ _) _ _ _ |- _ => inversion H; clear H; subst
  | H : matches (Grp _) _ _ _ |- _ => inversion H; clear H; subst
  | H : matches (Opt _) _ _ _ |- _ => inversion H; clear H; subst
  | H : matches (Chr _) _ _ _ |- _ => inversion H; clear H; subst
  | H : matches (Cls _) _ _ _ |- _ => inversion H; clear H; subst
  | H : matches (Star _) _ _ _ |- _ => inversion H; clear H; subst
  | H : matches Bol _ _ _ |- _ => inversion H; clear H; subst
  | H : matches Eol _ _ _ |- _ => inversion H; clear H; subst
  | H : matches Eps _ _ _ |- _ => inversion H; clear H; subst
  end.

Lemma not_slash_forall (n : str) :
  ~ In "/"%char n -> forallb not_slash n = true.
Proof.
  intro H. apply forallb_forall. intros c Hc. unfold not_slash.
  apply negb_true_iff. apply chr_eqb_neq. intro E. subst. contradiction.
Qed.

(** [([^/]+)/([^/]+)/?$] on OWNER/REPO: the two groups are the two names. *)
Lemma run_owner_repo (A : Type) (owner repo : str) bos g (K : cont A) x :
  name_ok owner -> name_ok repo ->
  K (owner ++ py "/" ++ repo) [] (g ++ [owner] ++ [repo]) = Some x ->
  run owner_repo bos (owner ++ py "/" ++ repo) g K = Some x.
Proof.
  intros [Ho Hos] [Hr Hrs] HK.
  destruct owner as [|o ow]; [congruence|].
  destruct repo as [|r rw]; [congruence|].
  assert (Ho1 : not_slash o = true /\ forallb not_slash ow = true).
  { apply not_slash_forall in Hos. simpl in Hos. now apply andb_true_iff in Hos. }
  assert (Hr1 : not_slash r = true /\ forallb not_slash rw = true).
  { apply not_slash_forall in Hrs. simpl in Hrs. now apply andb_true_iff in Hrs. }
  destruct Ho1 as [Ho1 Ho2]. destruct Hr1 as [Hr1 Hr2].
  unfold owner_repo, Plus. change (py "/") with ["/"%char] in *.
  cbn [run app]. rewrite Ho1.
  apply star_skip; [exact Ho2|].
  rewrite star_stop by reflexivity.
  simpl. rewrite Hr1.
  apply star_all; [exact Hr2|].
  rewrite !app_nil_r. rewrite <- app_assoc. exact HK.
Qed.

(** [^[a-zA-Z0-9\-_\s]+$] matches the non-empty strings over the class. *)
Lemma re_match_label (s : str) :
  is_some (re_match label_pattern s) = negb (is_empty s) && forallb label_chr s.
Proof.
  destruct (re_match label_pattern s) as [m|] eqn:E; simpl.
  - apply re_match_sound in E as (t & Hs & Hm).
    unfold label_pattern, Plus in Hm.
    remember (group m) as w eqn:Hw. clear Hw.
    inv_matches. simpl. rewrite app_nil_r, forallb_app, H0, H2. simpl.
    destruct H as [-> | ->]; reflexivity.
  - destruct s as [|c s]; [reflexivity|]. simpl.
    destruct (label_chr c) eqn:Hc; [|reflexivity].
    destruct (forallb label_chr s) eqn:Hs; [|reflexivity].
    exfalso. unfold re_match, label_pattern, Plus in E.
    cbn [run] in E. rewrite Hc in E.
    rewrite (@star_all _ label_chr s _ {| group := c :: s; groups := [] |} Hs) in E.
    + discriminate.
    + simpl. now rewrite app_nil_r.
Qed.

(** The search finds the span from the first opening brace to the last
    closing brace. *)
Lemma search_json_span (pre mid post : str) bos :
  ~ In "{"%char pre -> ~ In "}"%char post ->
  search_from json_pattern bos (pre ++ py "{" ++ mid ++ py "}" ++ post)
  = Some {| group := py "{" ++ mid ++ py "}";
            groups := [py "{" ++ mid ++ py "}"] |}.
Proof.
  intros Hpre Hpost.
  change (py "{") with ["{"%char]. change (py "}") with ["}"%char].
  revert bos. induction pre as [|c pre IH]; intro bos.
  - simpl.
    match goal with
    | |- context [star any_chr _ ?K] =>
        assert (Hs : star any_chr (mid ++ "}"%char :: post) K
                     = Some {| group := "{"%char :: mid ++ ["}"%char];
                               groups := ["{"%char :: mid ++ ["}"%char]] |})
    end.
    { apply star_skip.
      - now apply forallb_forall.
      - simpl. rewrite star_none.
        + now rewrite app_nil_r.
        + intros w t ->. destruct t as [|x t]; [reflexivity|].
          destruct (chr_eqb x "}"%char) eqn:E; [|reflexivity].
          apply chr_eqb_eq in E. subst x. exfalso. apply Hpost.
          apply in_or_app. right. now left. }
    now rewrite Hs.
  - assert (Hc : chr_eqb c "{"%char = false).
    { apply chr_eqb_neq. intro E. subst c. apply Hpre. now left. }
    simpl app. cbn [search_from]. unfold json_pattern at 1. cbn [run].
    rewrite Hc. apply IH. intro H. apply Hpre. now right.
Qed.


(* ================================================================= *)
(** ** The heuristic classifier *)

Lemma any_in_false (words : list str) (title : str) :
  any_in words (lower title) = false <-> ~ mentions words title.
Proof.
  rewrite <- any_in_spec. destruct (any_in words (lower title)); split;
    intro H; congruence.
Qed.

Lemma startswith_any_false (ps : list str) (title : str) :
  startswith_any ps (lower title) = false <-> ~ opens_with ps title.
Proof.
  rewrite <- startswith_any_spec.
  destruct (startswith_any ps (lower title)); split; intro H; congruence.
Qed.

Lemma fallback_type (title body : str) (existing_labels : list str) :
  exists ty,
    dict_get (py "type") (create_fallback_analysis title body existing_labels)
    = Some (JStr ty)
    /\ heuristic_type title ty.
Proof.
  unfold create_fallback_analysis.
  destruct (any_in bug_words (lower title)) eqn:E1.
  { eexists. split; [reflexivity|]. apply H_bug. now apply any_in_spec. }
  apply any_in_false in E1.
  destruct (any_in feature_words (lower title)) eqn:E2.
  { eexists. split; [reflexivity|]. apply H_feature; auto. now apply any_in_spec. }
  apply any_in_false in E2.
  destruct (any_in doc_words (lower title)) eqn:E3.
  { eexists. split; [reflexivity|]. apply H_doc; auto. now apply any_in_spec. }
  apply any_in_false in E3.
  destruct (startswith_any question_prefixes (lower title)) eqn:E4.
  { eexists. split; [reflexivity|]. apply H_question; auto.
    now apply startswith_any_spec. }
  apply startswith_any_false in E4.
  eexists. split; [reflexivity|]. now apply H_other.
Qed.

Lemma heuristic_type_lower (t1 t2 ty : str) :
  lower t1 = lower t2 -> heuristic_type t1 ty -> heuristic_type t2 ty.
Proof.
  intros E H.
  assert (Hm : forall ws, mentions ws t1 <-> mentions ws t2).
  { intro ws. unfold mentions. now rewrite E. }
  assert (Ho : forall ps, opens_with ps t1 <-> opens_with ps t2).
  { intro ps. unfold opens_with. now rewrite E. }
  destruct H; [apply H_bug | apply H_feature | apply H_doc | apply H_question
               | apply H_other];
    rewrite <- ?Hm, <- ?Ho; assumption.
Qed.

(** The code follows the rules of the specification, over the keyword sets
    that the specification lists. *)
Lemma fallback_classified (title body : str) (existing_labels : list str) :
  exists ty,
    dict_get (py "type") (create_fallback_analysis title body existing_labels)
    = Some (JStr ty)
    /\ classified title ty.
Proof.
  unfold create_fallback_analysis.
  destruct (any_in bug_words (lower title)) eqn:E1.
  { eexists. split; [reflexivity|]. apply K_bug.
    apply (proj1 (any_in_spec bug_words title)) in E1. exact E1. }
  apply (proj1 (any_in_false bug_words title)) in E1.
  destruct (any_in feature_words (lower title)) eqn:E2.
  { eexists. split; [reflexivity|]. apply K_feature; [exact E1|].
    apply (proj1 (any_in_spec feature_words title)) in E2. exact E2. }
  apply (proj1 (any_in_false feature_words title)) in E2.
  destruct (any_in doc_words (lower title)) eqn:E3.
  { eexists. split; [reflexivity|]. apply K_documentation; [exact E1|exact E2|].
    apply (proj1 (any_in_spec doc_words title)) in E3. exact E3. }
  apply (proj1 (any_in_false doc_words title)) in E3.
  destruct (startswith_any question_prefixes (lower title)) eqn:E4.
  { eexists. split; [reflexivity|].
    apply K_question; [exact E1|exact E2|exact E3|].
    apply (proj1 (startswith_any_spec question_prefixes title)) in E4. exact E4. }
  apply (proj1 (startswith_any_false question_prefixes title)) in E4.
  eexists. split; [reflexivity|].
  apply K_other; [exact E1|exact E2|exact E3|exact E4].
Qed.

(** The rules give one type only. *)
Lemma classified_unique (title ty1 ty2 : str) :
  classified title ty1 -> classified title ty2 -> ty1 = ty2.
Proof.
  intros H1 H2. destruct H1; inversion H2; try reflexivity; contradiction.
Qed.

(** C8. The heuristic classifier applies the keyword rules of the
    specification, over the keyword sets that it lists (bug, error, issue,
    broken, not working; feature, add, support, enhancement; doc,
    documentation, readme; the openers how, why, what and the question
    mark), in their order to the lowercased title, the first that matches
    giving the type, which the rules determine; and it fills the other
    fields deterministically: the summary is the fixed prefix, the title cut
    to 100 characters and an ellipsis exactly when it was cut; the priority
    and the impact are the fixed texts; the labels are the first three
    existing ones, or needs-triage when there is none.  The three titles of
    the specification classify as bug, feature_request and question. *)
Theorem fallback_classifier (title body : str) (existing_labels : list str) :
  let d := create_fallback_analysis title body existing_labels in
  (exists ty, dict_get (py "type") d = Some (JStr ty) /\ classified title ty
              /\ forall ty', classified title ty' -> ty' = ty)
  /\ (forall title',
        lower title' = lower title ->
        dict_get (py "type") (create_fallback_analysis title' body existing_labels)
        = dict_get (py "type") d)
  /\ (length title <= 100 ->
      dict_get (py "summary") d = Some (JStr (py "Issue regarding: " ++ title)))
  /\ (100 < length title ->
      dict_get (py "summary") d
      = Some (JStr (py "Issue regarding: " ++ firstn 100 title ++ py "...")))
  /\ dict_get (py "priority_score") d
     = Some (JStr (py "3 - Unable to determine exact priority, defaulting to moderate"))
  /\ dict_get (py "potential_impact") d
     = Some (JStr (py "Impact assessment requires manual review due to processing error"))
  /\ (existing_labels = [] ->
      dict_get (py "suggested_labels") d = Some (JArr [JStr (py "needs-triage")]))
  /\ (existing_labels <> [] ->
      dict_get (py "suggested_labels") d
      = Some (JArr (map JStr (firstn 3 existing_labels))))
  /\ dict_get (py "type")
       (create_fallback_analysis (py "Bug: login broken") body existing_labels)
     = Some (JStr (py "bug"))
  /\ dict_get (py "type")
       (create_fallback_analysis (py "Add dark mode support") body existing_labels)
     = Some (JStr (py "feature_request"))
  /\ dict_get (py "type")
       (create_fallback_analysis (py "How do I configure X?") body existing_labels)
     = Some (JStr (py "question")).
Proof.
  intro d. split.
  { destruct (fallback_classified title body existing_labels) as (ty & Hd & Hc).
    exists ty. split; [exact Hd|]. split; [exact Hc|].
    intros ty' Hc'. exact (classified_unique Hc' Hc). }
  repeat split.
  - intros title' E. unfold d, create_fallback_analysis. now rewrite E.
  - intro H. unfold d, create_fallback_analysis, slice_to.
    apply Nat.ltb_ge in H as H'. rewrite H'.
    rewrite firstn_all2 by exact H. now rewrite app_nil_r.
  - intro H. unfold d, create_fallback_analysis, slice_to.
    apply Nat.ltb_lt in H. now rewrite H.
  - intros ->. reflexivity.
  - intro H. unfold d, create_fallback_analysis.
    destruct existing_labels; [congruence|reflexivity].
Qed.

Lemma fallback_classifier_witness :
  dict_get (py "summary")
    (create_fallback_analysis (py "Bug: login broken") [] [py "ui"; py "P1"])
  = Some (JStr (py "Issue regarding: Bug: login broken"))
  /\ dict_get (py "suggested_labels")
       (create_fallback_analysis (py "Bug: login broken") [] [py "ui"; py "P1"])
     = Some (JArr [JStr (py "ui"); JStr (py "P1")]).
Proof.
  destruct (fallback_classifier (py "Bug: login broken") [] [py "ui"; py "P1"])
    as (_ & _ & Hs & _ & _ & _ & _ & Hl & _).
  split.
  - apply Hs. simpl. lia.
  - apply Hl. discriminate.
Defined.

(** C10. The fallback analysis does not depend on the issue body: two bodies
    give the same dictionary, field by field. *)
Theorem fallback_ignores_body (title b1 b2 : str) (existing_labels : list str) :
  create_fallback_analysis title b1 existing_labels
  = create_fallback_analysis title b2 existing_labels
  /\ forall key,
       dict_get key (create_fallback_analysis title b1 existing_labels)
       = dict_get key (create_fallback_analysis title b2 existing_labels).
Proof. split; [reflexivity | intro key; reflexivity]. Qed.

(* ================================================================= *)
(** ** The comments of an issue *)

Lemma well_formed_dec (c : comment) : {well_formed c} + {~ well_formed c}.
Proof.
  unfold well_formed.
  destruct (user c) as [| |u]; destruct (comment_body c) as [| |b];
    try (left; split; discriminate);
    right; intros [H1 H2]; congruence.
Qed.

Lemma format_comments_ok (cs : list comment) :
  forall acc,
    Forall well_formed cs ->
    format_comments cs acc = Ok (acc ++ map rendered (filter has_text cs)).
Proof.
  induction cs as [|c cs IH]; intros acc H.
  - simpl. now rewrite app_nil_r.
  - inversion H as [|c' cs' [Hu Hb] Hcs]; subst.
    destruct c as [u b]. simpl in Hu, Hb.
    destruct u as [| |[| |login]]; try congruence;
      destruct b as [| |b]; try congruence;
      cbn [format_comments comment_author comment_text and_then user
           comment_body filter];
      unfold has_text at 1, text_of at 1, rendered at 1, author_of, text_of;
      cbn [user comment_body].
    all: destruct (is_empty (strip _)) eqn:Eb; cbn [negb map];
      rewrite IH by assumption; try reflexivity.
    all: try (vm_compute in Eb; discriminate).
    all: rewrite <- app_assoc; reflexivity.
Qed.

Lemma format_comments_raises (cs : list comment) :
  forall acc,
    ~ Forall well_formed cs -> exists e, format_comments cs acc = Raise e.
Proof.
  induction cs as [|c cs IH]; intros acc H.
  - exfalso. apply H. constructor.
  - destruct (well_formed_dec c) as [Hc|Hc].
    + assert (Hcs : ~ Forall well_formed cs).
      { intro F. apply H. now constructor. }
      destruct Hc as [Hu Hb]. destruct c as [u b]. simpl in Hu, Hb.
      destruct u as [| |[| |login]]; try congruence;
        destruct b as [| |b]; try congruence;
        cbn [format_comments comment_author comment_text and_then user
             comment_body].
      all: destruct (is_empty (strip _)); cbn [negb]; now apply IH.
    + destruct c as [u b]. unfold well_formed in Hc. simpl in Hc.
      destruct u as [| |[| |login]]; destruct b as [| |b];
        cbn [format_comments comment_author comment_text and_then user
             comment_body];
        try (eexists; reflexivity);
        exfalso; apply Hc; split; discriminate.
Qed.

(** C9. Fetching the comments never fails the caller: the result is always a
    string.  It is the empty string when the call raises, when the status is
    not 200, when the body cannot be read, and when a comment has a null user
    or body; otherwise the comments whose trimmed body is empty are skipped
    and the others, rendered with their author and trimmed body, are joined
    with the separator, which gives the empty string when none remains. *)
Theorem get_issue_comments_total (E : env) (comments_url : str) :
  let outcome := requests_get_comments E comments_url (get_github_headers E) in
  let r := result (get_issue_comments E comments_url) in
  (exists s, r = Ok s)
  /\ (forall e, outcome = HttpRaises e -> r = Ok [])
  /\ (forall status_code b,
        outcome = HttpResponse status_code b -> status_code <> 200%Z -> r = Ok [])
  /\ (forall e, outcome = HttpResponse 200 (Raise e) -> r = Ok [])
  /\ (forall cs,
        outcome = HttpResponse 200 (Ok cs) -> ~ Forall well_formed cs -> r = Ok [])
  /\ (forall cs,
        comments_url <> [] ->
        outcome = HttpResponse 200 (Ok cs) -> Forall well_formed cs ->
        r = Ok (join comment_separator (map rendered (filter has_text cs))))
  /\ (forall cs,
        outcome = HttpResponse 200 (Ok cs) -> filter has_text cs = [] -> r = Ok [])
  /\ comment_separator = "010"%char :: py "---COMMENT---" ++ ["010"%char].
Proof.
  intros outcome r. subst outcome r.
  destruct comments_url as [|u0 url];
    [repeat split; intros; try reflexivity; try congruence;
     eexists; reflexivity|].
  set (outcome := requests_get_comments E (u0 :: url) (get_github_headers E)).
  assert (Hgen : forall cs, outcome = HttpResponse 200 (Ok cs) ->
            (Forall well_formed cs ->
             result (get_issue_comments E (u0 :: url))
             = Ok (join comment_separator (map rendered (filter has_text cs))))
            /\ (~ Forall well_formed cs ->
                result (get_issue_comments E (u0 :: url)) = Ok [])).
  { intros cs Ho. unfold get_issue_comments. cbn [is_empty]. fold outcome.
    rewrite Ho. split; intro Hwf.
    - destruct cs as [|c cs]; [reflexivity|].
      unfold bind, lift, emit, try_except, ret, result.
      cbn [negb fst snd app Z.eqb Pos.eqb].
      rewrite (format_comments_ok [] Hwf). reflexivity.
    - destruct cs as [|c cs]; [exfalso; apply Hwf; constructor|].
      destruct (format_comments_raises [] Hwf) as [e He].
      unfold bind, lift, emit, try_except, ret, result.
      cbn [negb fst snd app Z.eqb Pos.eqb].
      rewrite He. reflexivity. }
  assert (Hbad : forall sc b, outcome = HttpResponse sc b -> sc <> 200%Z ->
            result (get_issue_comments E (u0 :: url)) = Ok []).
  { intros sc b Ho Hsc. unfold get_issue_comments. cbn [is_empty]. fold outcome.
    rewrite Ho. cbn. apply Z.eqb_neq in Hsc. now rewrite Hsc. }
  assert (Hexn : forall e, outcome = HttpRaises e ->
            result (get_issue_comments E (u0 :: url)) = Ok []).
  { intros e Ho. unfold get_issue_comments. cbn [is_empty]. fold outcome.
    now rewrite Ho. }
  assert (Hjson : forall e, outcome = HttpResponse 200 (Raise e) ->
            result (get_issue_comments E (u0 :: url)) = Ok []).
  { intros e Ho. unfold get_issue_comments. cbn [is_empty]. fold outcome.
    now rewrite Ho. }
  clearbody outcome.
  repeat split.
  - destruct outcome as [sc [cs|e]|e].
    + destruct (Z.eq_dec sc 200) as [->|Hsc].
      * destruct (Hgen cs eq_refl) as [H1 H2].
        destruct (Forall_dec _ well_formed_dec cs) as [Hwf|Hwf];
          eexists; eauto.
      * eexists. now apply (Hbad sc (Ok cs)).
    + destruct (Z.eq_dec sc 200) as [->|Hsc].
      * eexists. now apply (Hjson e).
      * eexists. now apply (Hbad sc (Raise e)).
    + eexists. now apply (Hexn e).
  - exact Hexn.
  - exact Hbad.
  - exact Hjson.
  - intros cs Ho Hwf. now apply (Hgen cs Ho).
  - intros cs _ Ho Hwf. now apply (Hgen cs Ho).
  - intros cs Ho Hf. destruct (Hgen cs Ho) as [H1 H2].
    destruct (Forall_dec _ well_formed_dec cs) as [Hwf|Hwf].
    + rewrite (H1 Hwf), Hf. reflexivity.
    + now apply H2.
Qed.

Lemma get_issue_comments_total_witness :
  result (get_issue_comments (example_env (Ok example_reply) 200)
            (py "https://api.github.com/c"))
  = Ok (py "Comment by bob:" ++ nl ++ py "hi" ++ comment_separator
        ++ py "Comment by unknown:" ++ nl ++ py "yo").
Proof.
  destruct (get_issue_comments_total (example_env (Ok example_reply) 200)
              (py "https://api.github.com/c"))
    as (_ & _ & _ & _ & _ & H & _).
  apply (H example_comments).
  - discriminate.
  - reflexivity.
  - repeat constructor; discriminate.
Defined.

(* ================================================================= *)
(** ** The label validator *)

Lemma clean_labels_spec (v : list str) : clean_labels v = kept_labels v.
Proof.
  unfold kept_labels, keeps, cleaned. induction v as [|l v IH]; simpl.
  - reflexivity.
  - rewrite re_match_label.
    destruct (is_empty (strip l)) eqn:E; simpl.
    + exact IH.
    + assert (Hl : is_empty (lower (strip l)) = false).
      { unfold lower. destruct (strip l); [discriminate|reflexivity]. }
      rewrite Hl. simpl.
      destruct (forallb label_chr (lower (strip l))); simpl; now rewrite IH.
Qed.

Lemma kept_labels_length (v : list str) : length (kept_labels v) <= length v.
Proof.
  unfold kept_labels. rewrite length_map. apply filter_length_le.
Qed.

Lemma field_suggested_labels_spec (d : dict) (v : list str) :
  get_str_list "suggested_labels" d = Ok v ->
  field_suggested_labels d =
    if (1 <=? length v) && (length v <=? 5) then
      match kept_labels v with
      | [] => Raise (ValueError (py "No valid labels found"))
      | _ => Ok (kept_labels v)
      end
    else Raise (ValueError (py "items")).
Proof.
  intro H. unfold field_suggested_labels. rewrite H.
  unfold and_then, check_items.
  destruct ((1 <=? length v) && (length v <=? 5)) eqn:E; [|reflexivity].
  apply andb_true_iff in E as [E1 E2].
  apply Nat.leb_le in E1, E2.
  unfold validate_labels. rewrite clean_labels_spec.
  destruct v as [|l v]; [simpl in E1; lia|].
  destruct (kept_labels (l :: v)) eqn:K; [reflexivity|].
  rewrite <- K. rewrite firstn_all2; [reflexivity|].
  pose proof (kept_labels_length (l :: v)). lia.
Qed.

Lemma IssueAnalysis_init_ok (d : dict) (a : IssueAnalysis) :
  IssueAnalysis_init d = Ok a <->
  field_summary d = Ok (summary a)
  /\ field_type d = Ok (type a)
  /\ field_priority_score d = Ok (priority_score a)
  /\ field_suggested_labels d = Ok (suggested_labels a)
  /\ field_potential_impact d = Ok (potential_impact a).
Proof.
  unfold IssueAnalysis_init. split.
  - destruct (field_summary d), (field_type d), (field_priority_score d),
      (field_suggested_labels d), (field_potential_impact d);
      intro H; try discriminate.
    injection H as <-. simpl. auto.
  - intros (-> & -> & -> & -> & ->). now destruct a.
Qed.

Lemma IssueAnalysis_init_raises (d : dict) (e : exn) :
  IssueAnalysis_init d = Raise e -> exists m, e = ValidationError m.
Proof.
  unfold IssueAnalysis_init.
  destruct (field_summary d), (field_type d), (field_priority_score d),
    (field_suggested_labels d), (field_potential_impact d);
    intro H; try discriminate; injection H as <-; eexists; reflexivity.
Qed.

Lemma IssueAnalysis_init_cases (d : dict) :
  (exists a, IssueAnalysis_init d = Ok a)
  \/ (exists m, IssueAnalysis_init d = Raise (ValidationError m)).
Proof.
  destruct (IssueAnalysis_init d) as [a|e] eqn:E.
  - left. now exists a.
  - right. destruct (IssueAnalysis_init_raises d E) as [m ->]. now exists m.
Qed.

Lemma kept_labels_valid (v : list str) :
  Forall (fun l => l <> [] /\ forallb label_chr l = true
                   /\ exists entry, In entry v /\ l = lower (strip entry))
         (kept_labels v).
Proof.
  apply Forall_forall. intros l Hl. unfold kept_labels in Hl.
  apply in_map_iff in Hl as (entry & <- & Hin).
  apply filter_In in Hin as [Hin Hk]. unfold keeps in Hk.
  apply andb_true_iff in Hk as [Hne Hcls]. unfold cleaned in *.
  repeat split.
  - apply negb_true_iff, is_empty_false in Hne. unfold lower.
    destruct (strip entry); [congruence|discriminate].
  - exact Hcls.
  - now exists entry.
Qed.

(** C5, as stated, fails: a candidate with six valid labels is rejected. *)
Lemma six_valid_labels_rejected :
  kept_labels six_labels = six_labels
  /\ IssueAnalysis_init candidate_six
     = Raise (ValidationError (py "suggested_labels"))
  /\ forall a, IssueAnalysis_init candidate_six <> Ok a.
Proof.
  assert (H : IssueAnalysis_init candidate_six
              = Raise (ValidationError (py "suggested_labels")))
    by (vm_compute; reflexivity).
  split; [vm_compute; reflexivity|].
  split; [exact H|].
  intros a Ha. rewrite H in Ha. discriminate.
Qed.

(** C5, amended.  A candidate whose [suggested_labels] has no entry or more
    than five entries is rejected by the field's own bounds, before any
    cleaning.  For one to five entries the validator trims and lowercases
    each entry, keeps those that are not empty after the trim and consist of
    characters of the class, fails when none survives and returns the
    survivors otherwise; the result has at most five entries, and the
    truncation never removes one. *)
Theorem suggested_labels_validation (d : dict) (v : list str) :
  get_str_list "suggested_labels" d = Ok v ->
  (forall a,
     IssueAnalysis_init d = Ok a ->
     1 <= length v <= 5
     /\ suggested_labels a = kept_labels v
     /\ kept_labels v <> []
     /\ length (suggested_labels a) <= 5)
  /\ (length v = 0 \/ 5 < length v \/ kept_labels v = [] ->
      exists m, IssueAnalysis_init d = Raise (ValidationError m))
  /\ (1 <= length v <= 5 -> kept_labels v <> [] ->
      field_suggested_labels d = Ok (kept_labels v))
  /\ Forall (fun l => l <> [] /\ forallb label_chr l = true
                      /\ exists entry, In entry v /\ l = lower (strip entry))
            (kept_labels v).
Proof.
  intro Hv. pose proof (field_suggested_labels_spec d Hv) as Hf.
  assert (Hok : forall ls, field_suggested_labels d = Ok ls ->
            1 <= length v <= 5 /\ ls = kept_labels v /\ kept_labels v <> []).
  { intros ls Hls. rewrite Hf in Hls.
    destruct ((1 <=? length v) && (length v <=? 5)) eqn:E; [|discriminate].
    apply andb_true_iff in E as [E1 E2]. apply Nat.leb_le in E1, E2.
    destruct (kept_labels v) eqn:K; [discriminate|].
    injection Hls as <-. repeat split; auto; discriminate. }
  repeat split.
  - apply IssueAnalysis_init_ok in H as (_ & _ & _ & H & _).
    apply Hok in H. lia.
  - apply IssueAnalysis_init_ok in H as (_ & _ & _ & H & _).
    apply Hok in H. lia.
  - apply IssueAnalysis_init_ok in H as (_ & _ & _ & H & _).
    now apply Hok in H.
  - apply IssueAnalysis_init_ok in H as (_ & _ & _ & H & _).
    now apply Hok in H.
  - apply IssueAnalysis_init_ok in H as (_ & _ & _ & H & _).
    apply Hok in H as (Hlen & -> & _).
    pose proof (kept_labels_length v). lia.
  - intros Hbad. destruct (IssueAnalysis_init_cases d) as [[a Ha]|Hr]; [|exact Hr].
    exfalso. apply IssueAnalysis_init_ok in Ha as (_ & _ & _ & H & _).
    apply Hok in H as (Hlen & _ & Hk).
    destruct Hbad as [H0|[H5|Hk0]]; [lia|lia|contradiction].
  - intros Hlen Hk. rewrite Hf.
    destruct Hlen as [H1 H5]. apply Nat.leb_le in H1, H5. rewrite H1, H5. simpl.
    destruct (kept_labels v); [contradiction|reflexivity].
  - apply kept_labels_valid.
Qed.

Lemma suggested_labels_validation_witness :
  exists m, IssueAnalysis_init candidate_six = Raise (ValidationError m).
Proof.
  destruct (@suggested_labels_validation candidate_six six_labels eq_refl)
    as (_ & H & _).
  apply H. right. left. simpl. lia.
Defined.

(* ================================================================= *)
(** ** The response normalizer *)

Lemma extract_json_span (pre mid post : str) :
  ~ In "{"%char pre -> ~ In "}"%char post ->
  extract_json (pre ++ py "{" ++ mid ++ py "}" ++ post) = py "{" ++ mid ++ py "}".
Proof.
  intros Hpre Hpost. unfold extract_json, re_search.
  now rewrite search_json_span.
Qed.


Lemma field_trimmed (key : string) (n : nat) (msg : string) (d : dict) (x : str) :
  and_then (and_then (get_str key d) (check_max_length n))
    (fun v => if is_empty v || is_empty (strip v)
              then Raise (ValueError (py msg)) else Ok (strip v)) = Ok x ->
  exists s, dict_get (py key) d = Some (JStr s) /\ x = strip s
            /\ length s <= n /\ x <> [].
Proof.
  unfold get_str, check_max_length, and_then.
  destruct (dict_get (py key) d) as [[| | |s| |]|]; try discriminate.
  destruct (length s <=? n) eqn:L; [|discriminate].
  destruct (is_empty s || is_empty (strip s)) eqn:V; [discriminate|].
  intro H. injection H as <-. exists s.
  apply Nat.leb_le in L. apply orb_false_iff in V as [_ V].
  apply is_empty_false in V. auto.
Qed.

Lemma analysis_fields (o : dict) (a : IssueAnalysis) :
  IssueAnalysis_init o = Ok a ->
  exists s t p ls i,
    dict_get (py "summary") o = Some (JStr s) /\ summary a = strip s
    /\ dict_get (py "type") o = Some (JStr t) /\ type a = t
    /\ dict_get (py "priority_score") o = Some (JStr p) /\ priority_score a = p
    /\ get_str_list "suggested_labels" o = Ok ls
    /\ suggested_labels a = kept_labels ls
    /\ dict_get (py "potential_impact") o = Some (JStr i)
    /\ potential_impact a = strip i.
Proof.
  intro H. apply IssueAnalysis_init_ok in H as (Hs & Ht & Hp & Hl & Hi).
  apply field_trimmed in Hs as (s & Hs & Hs' & _).
  apply field_trimmed in Hi as (i & Hi & Hi' & _).
  unfold field_type, get_str, check_type, and_then in Ht.
  destruct (dict_get (py "type") o) as [[| | |t| |]|] eqn:Et; try discriminate.
  destruct (existsb (str_eqb t) issue_types); [|discriminate].
  injection Ht as Ht.
  unfold field_priority_score, get_str, check_max_length, and_then in Hp.
  destruct (dict_get (py "priority_score") o) as [[| | |p| |]|] eqn:Ep;
    try discriminate.
  destruct (length p <=? 100); [|discriminate].
  injection Hp as Hp.
  destruct (get_str_list "suggested_labels" o) as [ls|e] eqn:El.
  - pose proof (field_suggested_labels_spec o El) as Hf. rewrite Hf in Hl.
    destruct ((1 <=? length ls) && (length ls <=? 5)); [|discriminate].
    destruct (kept_labels ls) eqn:K; [discriminate|].
    injection Hl as Hl.
    exists s, t, p, ls, i. rewrite K. repeat split; auto.
  - unfold field_suggested_labels in Hl. rewrite El in Hl. discriminate.
Qed.






(* ================================================================= *)
(** ** The URL parser *)




Lemma parse_loop_raises (ps : list regex) (s : str) (e : exn) :
  parse_loop ps s = Raise e -> exists m, e = ValueError m.
Proof.
  induction ps as [|p ps IH]; simpl; intro H.
  - injection H as <-. eexists. reflexivity.
  - destruct (re_match p s) as [m|]; [|now apply IH].
    destruct (groups m) as [|o [|r [|x l]]]; try discriminate;
      injection H as <-; eexists; reflexivity.
Qed.

Lemma parse_github_url_raises (url : str) (e : exn) :
  parse_github_url url = Raise e -> exists m, e = ValueError m.
Proof.
  unfold parse_github_url. destruct (is_empty url).
  - intro H. injection H as <-. eexists. reflexivity.
  - apply parse_loop_raises.
Qed.





Lemma strip_clean (s : str) :
  starts_clean s = true -> ends_clean s = true -> strip s = s.
Proof.
  intros Hs He. unfold strip.
  destruct s as [|c s]; [discriminate|]. simpl in Hs.
  apply negb_true_iff in Hs. rewrite lstrip_with_head by exact Hs.
  destruct (str_last_cases (c :: s)) as [E|(s' & x & E)]; [discriminate|].
  rewrite E in *. unfold ends_clean in He. rewrite rev_app_distr in He.
  simpl in He. apply negb_true_iff in He. now apply rstrip_with_last.
Qed.

Lemma ends_clean_app (a b : str) :
  b <> [] -> ends_clean (a ++ b) = ends_clean b.
Proof.
  intro Hb. unfold ends_clean. rewrite rev_app_distr.
  destruct (str_last_cases b) as [E|(b' & x & ->)]; [contradiction|].
  now rewrite rev_app_distr.
Qed.

Lemma starts_clean_app (a b : str) :
  a <> [] -> starts_clean (a ++ b) = starts_clean a.
Proof. intro Ha. destruct a; [contradiction|reflexivity]. Qed.

Lemma slashes_app (a b : str) : slashes (a ++ b) = slashes a + slashes b.
Proof. apply count_occ_app. Qed.

Lemma slashes_none (s : str) : ~ In "/"%char s -> slashes s = 0.
Proof. intro H. now apply count_occ_not_In. Qed.

Lemma owner_repo_slashes (bos : bool) (w t : str) :
  matches owner_repo bos w t -> 1 <= slashes w.
Proof.
  unfold owner_repo, Plus. intro H. inv_matches;
    repeat rewrite slashes_app; simpl; lia.
Qed.

(** A text OWNER/REPO matches none of the three patterns that start with the
    host. *)
Lemma bare_form_skips_host_patterns (owner repo : str) (pre : str) :
  name_ok owner -> name_ok repo -> 1 <= slashes pre ->
  re_match (Lit pre +++ owner_repo) (owner ++ py "/" ++ repo) = None.
Proof.
  intros [_ Ho] [_ Hr] Hpre.
  destruct (re_match _ _) as [m|] eqn:E; [|reflexivity].
  exfalso. apply re_match_sound in E as (t & Hs & Hm).
  remember (group m) as w eqn:Hw. clear Hw.
  inversion Hm as [| | | | | | |r1 r2 w1 w2 b rs H1 H2| |]; subst.
  apply matches_Lit in H1. subst w1.
  apply owner_repo_slashes in H2.
  apply (f_equal slashes) in Hs.
  repeat rewrite slashes_app in Hs.
  rewrite (@slashes_none owner Ho), (@slashes_none repo Hr) in Hs.
  change (slashes (py "/")) with 1 in Hs. lia.
Qed.

Lemma re_match_prefixed (pre owner repo : str) :
  name_ok owner -> name_ok repo ->
  re_match (Lit pre +++ owner_repo) (pre ++ owner ++ py "/" ++ repo)
  = Some {| group := pre ++ owner ++ py "/" ++ repo; groups := [owner; repo] |}.
Proof.
  intros Ho Hr. unfold re_match. cbn [run]. rewrite run_Lit.
  apply run_owner_repo; auto.
Qed.

Lemma re_match_bare (owner repo : str) :
  name_ok owner -> name_ok repo ->
  re_match (Bol +++ owner_repo) (owner ++ py "/" ++ repo)
  = Some {| group := owner ++ py "/" ++ repo; groups := [owner; repo] |}.
Proof.
  intros Ho Hr. unfold re_match. cbn [run].
  apply run_owner_repo; auto.
Qed.

Lemma parse_loop_form (sc : scheme) (owner repo : str) :
  name_ok owner -> name_ok repo ->
  parse_loop patterns (scheme_prefix sc ++ owner ++ py "/" ++ repo)
  = Ok (owner, strip_git repo).
Proof.
  intros Ho Hr. unfold patterns, strip_git.
  destruct sc; cbn [parse_loop scheme_prefix].
  - rewrite re_match_prefixed by assumption. reflexivity.
  - replace (re_match (Lit (py "https://github.com/") +++ owner_repo)
               (py "http://github.com/" ++ owner ++ py "/" ++ repo))
      with (@None match_obj) by reflexivity.
    rewrite re_match_prefixed by assumption. reflexivity.
  - replace (re_match (Lit (py "https://github.com/") +++ owner_repo)
               (py "github.com/" ++ owner ++ py "/" ++ repo))
      with (@None match_obj) by reflexivity.
    replace (re_match (Lit (py "http://github.com/") +++ owner_repo)
               (py "github.com/" ++ owner ++ py "/" ++ repo))
      with (@None match_obj) by reflexivity.
    rewrite re_match_prefixed by assumption. reflexivity.
  - cbn [app].
    rewrite !bare_form_skips_host_patterns by (auto; vm_compute; lia).
    rewrite re_match_bare by assumption. reflexivity.
Qed.

Lemma name_ok_last (n : str) :
  name_ok n -> exists n' x, n = n' ++ [x] /\ chr_eqb "/"%char x = false.
Proof.
  intros [Hne Hs]. destruct (str_last_cases n) as [E|(n' & x & E)]; [contradiction|].
  exists n', x. split; [exact E|].
  apply chr_eqb_neq. intro Hx. subst x. apply Hs. rewrite E.
  apply in_or_app. right. now left.
Qed.

Lemma name_ok_app (n suf : str) :
  name_ok n -> ~ In "/"%char suf -> name_ok (n ++ suf).
Proof.
  intros [Hne Hs] Hsuf. split.
  - destruct n; [contradiction|discriminate].
  - intro H. apply in_app_or in H as [H|H]; contradiction.
Qed.

Lemma rstrip_chr_name (pre n : str) :
  name_ok n -> rstrip_chr "/" (pre ++ n) = pre ++ n.
Proof.
  intro Hn. destruct (name_ok_last Hn) as (n' & x & -> & Hx).
  unfold rstrip_chr. rewrite app_assoc. now apply rstrip_with_last.
Qed.

(** The parser on a form built from well-formed names. *)
Lemma parse_form (sc : scheme) (owner repo : str) (git slash : bool) :
  name_ok owner -> name_ok repo ->
  starts_clean owner = true -> ends_clean repo = true ->
  parse_github_url (url_form sc owner repo git slash)
  = Ok (owner, strip_git (repo ++ if git then py ".git" else [])).
Proof.
  intros Ho Hr Hso Her.
  set (repo' := repo ++ if git then py ".git" else []).
  assert (Hr' : name_ok repo').
  { apply name_ok_app; [assumption|].
    destruct git; vm_compute; intuition discriminate. }
  assert (Her' : ends_clean repo' = true).
  { unfold repo'. destruct git.
    - now rewrite ends_clean_app by discriminate.
    - now rewrite app_nil_r. }
  assert (Hform : url_form sc owner repo git slash
                  = (scheme_prefix sc ++ owner ++ py "/" ++ repo')
                    ++ if slash then py "/" else []).
  { unfold url_form, repo'. now rewrite <- !app_assoc. }
  rewrite Hform. clear Hform.
  set (body := scheme_prefix sc ++ owner ++ py "/" ++ repo').
  assert (Hbody : body <> []).
  { unfold body. destruct Ho as [Hne _].
    destruct sc, owner; try discriminate; contradiction. }
  assert (Hsb : starts_clean body = true).
  { unfold body. destruct sc; try reflexivity.
    simpl. now rewrite starts_clean_app by apply Ho. }
  assert (Heb : ends_clean body = true).
  { unfold body. rewrite !app_assoc. rewrite ends_clean_app; [assumption|].
    apply Hr'. }
  assert (Hrs : rstrip_chr "/" body = body).
  { unfold body. rewrite !app_assoc. now apply rstrip_chr_name. }
  unfold parse_github_url.
  assert (Hne : is_empty (body ++ if slash then py "/" else []) = false).
  { apply is_empty_false. destruct body; [contradiction|discriminate]. }
  rewrite Hne.
  assert (Hnorm : rstrip_chr "/" (strip (body ++ if slash then py "/" else []))
                  = body).
  { destruct slash.
    - rewrite strip_clean.
      + change (py "/") with ["/"%char]. unfold rstrip_chr.
        rewrite rstrip_with_drop by reflexivity. exact Hrs.
      + now rewrite starts_clean_app.
      + now rewrite ends_clean_app by discriminate.
    - rewrite app_nil_r. now rewrite strip_clean. }
  rewrite Hnorm. unfold body. now apply parse_loop_form.
Qed.

(** C6, as stated, fails: OWNER and REPO being any non-empty texts without a
    slash, the forms with and without the .git suffix of the repository
    b.git parse differently, and so do the forms with and without a trailing
    slash of a repository whose name ends with a blank. *)
Lemma equivalent_forms_parse_differently :
  name_ok (py "a") /\ name_ok (py "b.git") /\ name_ok (py "b ")
  /\ parse_github_url (url_form Bare (py "a") (py "b.git") false false)
     <> parse_github_url (url_form Bare (py "a") (py "b.git") true false)
  /\ parse_github_url (url_form Bare (py "a") (py "b ") false false)
     <> parse_github_url (url_form Bare (py "a") (py "b ") false true).
Proof.
  repeat split; try discriminate;
    try (vm_compute; intuition discriminate).
Qed.

(** C6, amended.  For an OWNER and a REPO that are not empty, have no slash,
    do not begin (OWNER) or end (REPO) with white space, REPO not ending
    with .git itself, every accepted form, with any of the three prefixes or
    none, with or without the .git suffix, with or without a trailing slash,
    parses to the pair (OWNER, REPO).  The three texts of the specification
    parse to (facebook, react). *)
Theorem equivalent_url_forms :
  (forall owner repo,
     name_ok owner -> name_ok repo ->
     starts_clean owner = true -> ends_clean repo = true ->
     endswith (py ".git") repo = false ->
     forall sc git slash,
       parse_github_url (url_form sc owner repo git slash) = Ok (owner, repo))
  /\ parse_github_url (py "https://github.com/facebook/react")
     = Ok (py "facebook", py "react")
  /\ parse_github_url (py "github.com/facebook/react/")
     = Ok (py "facebook", py "react")
  /\ parse_github_url (py "facebook/react") = Ok (py "facebook", py "react").
Proof.
  split; [|repeat split; vm_compute; reflexivity].
  intros owner repo Ho Hr Hso Her Hgit sc git slash.
  rewrite parse_form by assumption. f_equal. f_equal.
  unfold strip_git. destruct git.
  - rewrite endswith_app. change 4 with (length (py ".git")).
    apply slice_to_neg_app.
  - rewrite app_nil_r. now rewrite Hgit.
Qed.

Lemma equivalent_url_forms_witness :
  parse_github_url (url_form Http (py "facebook") (py "react") true true)
  = Ok (py "facebook", py "react").
Proof.
  destruct equivalent_url_forms as [H _].
  apply H; try reflexivity; split; try discriminate;
    vm_compute; intuition discriminate.
Defined.

(* ================================================================= *)
(** ** The endpoint *)

Lemma IssueRequest_init_ok (url : str) (n : Z) (data : IssueRequest) :
  IssueRequest_init url n = Ok data ->
  validate_repo_url url = Ok (repo_url data)
  /\ issue_number data = n /\ (1 <= n)%Z.
Proof.
  unfold IssueRequest_init, check_issue_number.
  destruct (validate_repo_url url) as [u|e];
    destruct (Z.leb_spec 1 n) as [Hn|Hn]; intro Hd; try discriminate.
  injection Hd as <-. auto.
Qed.

Lemma IssueRequest_init_nonpositive (url : str) (n : Z) :
  (n <= 0)%Z -> exists m, IssueRequest_init url n = Raise (ValidationError m).
Proof.
  intro Hn. unfold IssueRequest_init, check_issue_number.
  destruct (Z.leb_spec 1 n) as [H1|H1]; [lia|].
  destruct (validate_repo_url url); eexists; reflexivity.
Qed.

Lemma get_issue_data_nonpositive (E : env) (owner repo : str) (n : Z) :
  (n <= 0)%Z ->
  get_issue_data E owner repo n
  = (Raise (ValueError (py "Issue number must be positive")), []).
Proof.
  intro Hn. unfold get_issue_data.
  destruct (Z.leb_spec n 0) as [H0|H0]; [reflexivity|lia].
Qed.

Lemma get_issue_data_status (E : env) (owner repo : str) (n : Z)
  (status_code : Z) (b : res RawIssue) :
  (1 <= n)%Z ->
  requests_get_issue E (issue_url owner repo n) (get_github_headers E)
  = HttpResponse status_code b ->
  get_issue_data E owner repo n
  = ((if (status_code =? 404)%Z then
        Raise (ValueError
                 (py "Issue #" ++ str_of_int n ++ py " not found in repository "
                  ++ owner ++ py "/" ++ repo))
      else if (status_code =? 403)%Z then
        Raise (ValueError
                 (py "GitHub API rate limit exceeded or repository is private"))
      else if negb (status_code =? 200)%Z then
        Raise (RequestException
                 (py "GitHub API returned status " ++ str_of_int status_code))
      else
        match b with
        | Raise Timeout =>
            Raise (RequestException (py "GitHub API request timed out"))
        | Raise ConnectionError =>
            Raise (RequestException (py "Failed to connect to GitHub API"))
        | _ => b
        end),
     [HttpGet (issue_url owner repo n) (get_github_headers E)]).
Proof.
  intros Hn Hr. unfold get_issue_data.
  destruct (Z.leb_spec n 0) as [H0|H0]; [lia|].
  unfold bind, emit, try_except, raise, lift. rewrite Hr.
  destruct (status_code =? 404)%Z; [reflexivity|].
  destruct (status_code =? 403)%Z; [reflexivity|].
  destruct (status_code =? 200)%Z; [|reflexivity].
  cbn [negb]. destruct b as [a|[]]; reflexivity.
Qed.

(** C2, as stated, fails: the request for issue 0 is answered with status
    422, not 400. *)
Lemma issue_zero_is_unprocessable :
  status (fst (post_analyze (example_env (Ok example_reply) 200) react_url 0))
  = 422%Z
  /\ status (fst (post_analyze (example_env (Ok example_reply) 200) react_url 0))
     <> 400%Z.
Proof. split; [vm_compute; reflexivity | vm_compute; discriminate]. Qed.

(** C2, amended.  A request whose issue number is 0 or negative does not
    pass the bound of the request model: the service answers 422 and the
    handler is not called, so no outbound call is attempted.  The handler
    itself, given such a number, raises the 400 exception, the issue fetch
    refusing the number before any outbound call. *)
Theorem nonpositive_issue_number_rejected (E : env) (url : str) (n : Z) :
  (n <= 0)%Z ->
  (exists e, post_analyze E url n = (Unprocessable e, []))
  /\ status (fst (post_analyze E url n)) = 422%Z
  /\ snd (post_analyze E url n) = []
  /\ (exists m,
        analyze_issue E {| repo_url := url; issue_number := n |}
        = (inr (HTTPException 400 (StrOf (ValueError m))), []))
  /\ (forall owner repo,
        get_issue_data E owner repo n
        = (Raise (ValueError (py "Issue number must be positive")), [])).
Proof.
  intro Hn.
  destruct (IssueRequest_init_nonpositive url Hn) as [m Hm].
  assert (Hp : post_analyze E url n = (Unprocessable (ValidationError m), [])).
  { unfold post_analyze. now rewrite Hm. }
  split; [eexists; exact Hp|].
  split; [now rewrite Hp|].
  split; [now rewrite Hp|].
  split; [|intros owner repo; now apply get_issue_data_nonpositive].
  unfold analyze_issue. cbn [repo_url issue_number].
  destruct (parse_github_url url) as [[owner repo]|e] eqn:P.
  - unfold bind, lift. rewrite (get_issue_data_nonpositive E owner repo Hn).
    eexists. reflexivity.
  - destruct (parse_github_url_raises url P) as [m' ->].
    eexists. reflexivity.
Qed.

Lemma nonpositive_issue_number_rejected_witness :
  status (fst (post_analyze (example_env (Ok example_reply) 200) react_url (-3)))
  = 422%Z
  /\ snd (post_analyze (example_env (Ok example_reply) 200) react_url (-3)) = [].
Proof.
  destruct (@nonpositive_issue_number_rejected
              (example_env (Ok example_reply) 200) react_url (-3)%Z)
    as (_ & H1 & H2 & _).
  - lia.
  - split; [exact H1 | exact H2].
Defined.

(** C3, as stated, fails: when the issue fetch answers 403 the endpoint
    answers 400, not 502. *)
Lemma rate_limit_is_answered_400 :
  status (fst (post_analyze (example_env (Ok example_reply) 403) react_url 1))
  = 400%Z
  /\ status (fst (post_analyze (example_env (Ok example_reply) 403) react_url 1))
     <> 502%Z.
Proof. split; [vm_compute; reflexivity | vm_compute; discriminate]. Qed.

(** C3, amended.  When the issue fetch answers 403, the fetch raises a
    ValueError (rate limit exceeded or repository private), which is not a
    RequestException, and the endpoint answers 400 with that message after
    the one outbound call.  The answer 502 is given for a status other than
    200, 404 and 403. *)
Theorem rate_limit_answer (E : env) (url : str) (n : Z) (data : IssueRequest)
  (owner repo : str) (status_code : Z) (b : res RawIssue) :
  IssueRequest_init url n = Ok data ->
  parse_github_url (repo_url data) = Ok (owner, repo) ->
  requests_get_issue E (issue_url owner repo n) (get_github_headers E)
  = HttpResponse status_code b ->
  (status_code = 403%Z ->
     result (get_issue_data E owner repo n) = Raise (ValueError rate_limit_msg)
     /\ is_RequestException (ValueError rate_limit_msg) = false
     /\ post_analyze E url n
        = (Failure 400 (StrOf (ValueError rate_limit_msg)),
           [HttpGet (issue_url owner repo n) (get_github_headers E)]))
  /\ (status_code <> 200%Z -> status_code <> 404%Z -> status_code <> 403%Z ->
      post_analyze E url n
      = (Failure 502 (Text (py "Failed to fetch data from GitHub API")),
         [HttpGet (issue_url owner repo n) (get_github_headers E)])).
Proof.
  intros Hd Hp Hr.
  destruct (IssueRequest_init_ok url n Hd) as (_ & Hn & H1).
  pose proof (get_issue_data_status E owner repo H1 Hr) as Hg.
  assert (Hpost : post_analyze E url n
                  = match analyze_issue E data with
                    | (inl a, t) => (Success a, t)
                    | (inr (HTTPException sc d), t) => (Failure sc d, t)
                    end).
  { unfold post_analyze. now rewrite Hd. }
  split.
  - intros ->. split; [now rewrite Hg|]. split; [reflexivity|].
    rewrite Hpost. unfold analyze_issue. rewrite Hp, Hn.
    unfold bind at 1, lift at 1. rewrite Hg. reflexivity.
  - intros H200 H404 H403.
    apply Z.eqb_neq in H200, H404, H403.
    rewrite Hpost. unfold analyze_issue. rewrite Hp, Hn.
    unfold bind at 1, lift at 1. rewrite Hg.
    rewrite H200, H404, H403. reflexivity.
Qed.

Lemma rate_limit_answer_witness :
  post_analyze (example_env (Ok example_reply) 403) react_url 1
  = (Failure 400 (StrOf (ValueError rate_limit_msg)),
     [HttpGet (issue_url (py "facebook") (py "react") 1)
        (get_github_headers (example_env (Ok example_reply) 403))]).
Proof.
  destruct (@rate_limit_answer (example_env (Ok example_reply) 403) react_url 1
              {| repo_url := react_url; issue_number := 1 |}
              (py "facebook") (py "react") 403 (Ok example_issue))
    as [H _].
  - vm_compute. reflexivity.
  - vm_compute. reflexivity.
  - reflexivity.
  - apply H. reflexivity.
Defined.

(* ================================================================= *)
(** ** What a constructed analysis satisfies *)

Ltac each_chr c :=
  destruct c as [[] [] [] [] [] [] [] []]; vm_compute; reflexivity.

Lemma lower_chr_idem (c : ascii) : lower_chr (lower_chr c) = lower_chr c.
Proof. each_chr c. Qed.

Lemma lower_idem (s : str) : lower (lower s) = lower s.
Proof.
  unfold lower. rewrite map_map. apply map_ext. exact lower_chr_idem.
Qed.

Lemma lstrip_with_length (p : ascii -> bool) (s : str) :
  length (lstrip_with p s) <= length s.
Proof.
  induction s as [|c s IH]; simpl; [lia|]. destruct (p c); simpl; lia.
Qed.

Lemma strip_length (s : str) : length (strip s) <= length s.
Proof.
  unfold strip, rstrip_with. rewrite length_rev.
  etransitivity; [apply lstrip_with_length|]. rewrite length_rev.
  apply lstrip_with_length.
Qed.

Lemma kept_labels_all_valid (v : list str) :
  forallb valid_label (kept_labels v) = true.
Proof.
  apply forallb_forall. intros l Hl.
  pose proof (kept_labels_valid v) as H. rewrite Forall_forall in H.
  destruct (H l Hl) as (Hne & Hcls & entry & _ & ->).
  unfold valid_label. rewrite Hcls, lower_idem, str_eqb_refl.
  apply is_empty_false in Hne. now rewrite Hne.
Qed.

(** Every analysis that the model lets through is valid. *)
Lemma IssueAnalysis_init_valid (d : dict) (a : IssueAnalysis) :
  IssueAnalysis_init d = Ok a -> valid_analysis a = true.
Proof.
  intro H. apply IssueAnalysis_init_ok in H as (Hs & Ht & Hp & Hl & Hi).
  apply field_trimmed in Hs as (s & _ & Hs & Hsl & Hsn).
  apply field_trimmed in Hi as (i & _ & Hi & Hil & Hin).
  unfold field_type, get_str, check_type, and_then in Ht.
  destruct (dict_get (py "type") d) as [[| | |t| |]|]; try discriminate.
  destruct (existsb (str_eqb t) issue_types) eqn:Et; [|discriminate].
  injection Ht as Ht.
  unfold field_priority_score, get_str, check_max_length, and_then in Hp.
  destruct (dict_get (py "priority_score") d) as [[| | |p| |]|];
    try discriminate.
  destruct (length p <=? 100) eqn:Ep; [|discriminate].
  injection Hp as Hp.
  destruct (get_str_list "suggested_labels" d) as [ls|e] eqn:El.
  2: { unfold field_suggested_labels in Hl. rewrite El in Hl. discriminate. }
  rewrite (field_suggested_labels_spec d El) in Hl.
  destruct ((1 <=? length ls) && (length ls <=? 5)) eqn:Eb; [|discriminate].
  apply andb_true_iff in Eb as [_ E5]. apply Nat.leb_le in E5.
  destruct (kept_labels ls) as [|l0 ks] eqn:K; [discriminate|].
  injection Hl as Hl.
  pose proof (kept_labels_length ls) as Hlen.
  pose proof (kept_labels_all_valid ls) as Hval.
  pose proof (strip_length s). pose proof (strip_length i).
  unfold valid_analysis.
  rewrite <- Ht, <- Hp, <- Hl. rewrite Et, Ep, <- K, Hval.
  apply is_empty_false in Hsn, Hin. rewrite Hsn, Hin.
  assert (H1 : (length (summary a) <=? 200) = true)
    by (apply Nat.leb_le; rewrite Hs; lia).
  assert (H2 : (length (potential_impact a) <=? 200) = true)
    by (apply Nat.leb_le; rewrite Hi; lia).
  assert (H3 : (1 <=? length (kept_labels ls)) = true)
    by (apply Nat.leb_le; rewrite K; simpl; lia).
  assert (H4 : (length (kept_labels ls) <=? 5) = true)
    by (apply Nat.leb_le; lia).
  rewrite H1, H2, H3, H4. reflexivity.
Qed.

(* ================================================================= *)
(** ** The analysis path *)

Lemma all_str_map (l : list str) : all_str (map JStr l) = Some l.
Proof. induction l as [|x l IH]; simpl; [reflexivity|now rewrite IH]. Qed.

Lemma fallback_get_labels (title body : str) (existing_labels : list str) :
  get_str_list "suggested_labels"
    (create_fallback_analysis title body existing_labels)
  = Ok (fallback_labels existing_labels).
Proof.
  unfold create_fallback_analysis, get_str_list.
  cbn [dict_get]. change (str_eqb (py "summary") (py "suggested_labels")) with false.
  change (str_eqb (py "type") (py "suggested_labels")) with false.
  change (str_eqb (py "priority_score") (py "suggested_labels")) with false.
  change (str_eqb (py "suggested_labels") (py "suggested_labels")) with true.
  cbv iota. now rewrite all_str_map.
Qed.

(** The fallback dictionary is refused when none of the labels it takes
    over survives the cleaning. *)
Lemma fallback_refused (title body : str) (existing_labels : list str) :
  existing_labels <> [] ->
  kept_labels (firstn 3 existing_labels) = [] ->
  exists m,
    IssueAnalysis_init (create_fallback_analysis title body existing_labels)
    = Raise (ValidationError m).
Proof.
  intros Hne Hk.
  destruct (IssueAnalysis_init_cases
              (create_fallback_analysis title body existing_labels))
    as [[a Ha]|Hr]; [|exact Hr].
  exfalso. apply IssueAnalysis_init_ok in Ha as (_ & _ & _ & Hl & _).
  rewrite (field_suggested_labels_spec _
             (fallback_get_labels title body existing_labels)) in Hl.
  unfold fallback_labels in Hl.
  destruct existing_labels as [|l ls]; [contradiction|].
  rewrite Hk in Hl.
  destruct ((1 <=? _) && _); discriminate.
Qed.

(** The analysis path gives an analysis, or what the construction of the
    fallback analysis raises. *)
Lemma analyze_with_llm_cases (E : env) (title body comments : str)
  (labels : list label) (state : str) :
  (exists a, result (analyze_with_llm E title body comments labels state) = Ok a
             /\ valid_analysis a = true)
  \/ (exists m,
        result (analyze_with_llm E title body comments labels state)
        = Raise (ValidationError m)
        /\ IssueAnalysis_init
             (create_fallback_analysis title body (map get_name labels))
           = Raise (ValidationError m)).
Proof.
  unfold analyze_with_llm.
  set (fb := create_fallback_analysis title body (map get_name labels)).
  set (prompt := build_prompt title body state (map get_name labels) comments).
  assert (Hfb : (exists a, IssueAnalysis_init fb = Ok a /\ valid_analysis a = true)
                \/ (exists m, IssueAnalysis_init fb = Raise (ValidationError m))).
  { destruct (IssueAnalysis_init_cases fb) as [[a Ha]|Hr]; [left|now right].
    exists a. split; [exact Ha|]. now apply IssueAnalysis_init_valid in Ha. }
  assert (Hh : forall t,
            (exists a, result (try_except (Raise (OtherException []), t)
                         (fun _ => lift (IssueAnalysis_kwargs (JObj fb)))) = Ok a
                       /\ valid_analysis a = true)
            \/ (exists m, result (try_except (Raise (OtherException []), t)
                            (fun _ => lift (IssueAnalysis_kwargs (JObj fb))))
                          = Raise (ValidationError m)
                          /\ IssueAnalysis_init fb = Raise (ValidationError m))).
  { intro t. unfold try_except, lift, result. cbn [IssueAnalysis_kwargs fst].
    destruct Hfb as [(a & Ha & Hv)|(m & Hm)].
    - left. exists a. now rewrite Ha.
    - right. exists m. now rewrite Hm. }
  unfold bind, emit, lift.
  destruct (generate_content E prompt) as [text|e].
  - destruct (is_empty text).
    + exact (Hh _).
    + destruct (json_loads E (extract_json (strip text))) as [v|].
      * destruct (IssueAnalysis_kwargs v) as [a|e] eqn:Ev.
        -- left. exists a. split; [reflexivity|].
           destruct v; try discriminate. simpl in Ev.
           now apply IssueAnalysis_init_valid in Ev.
        -- exact (Hh _).
      * destruct (IssueAnalysis_kwargs (JObj fb)) as [a|e] eqn:Ev.
        -- left. exists a. split; [reflexivity|].
           simpl in Ev. now apply IssueAnalysis_init_valid in Ev.
        -- exact (Hh _).
  - exact (Hh _).
Qed.

(** C1.  The analysis path returns a valid analysis unless the construction
    of the fallback analysis itself raises, and that construction does raise:
    the fallback takes over the first three existing labels as they are, and
    when none of them passes the label validator (a name with a colon, say)
    the ValidationError leaves analyze_with_llm.  With the one label
    type: bug and a model that fails or answers with prose, the analysis
    path raises and the endpoint answers 400. *)
Theorem fallback_construction_can_raise :
  (forall E title body comments labels state,
     (exists a,
        result (analyze_with_llm E title body comments labels state) = Ok a
        /\ valid_analysis a = true)
     \/ (exists m,
           result (analyze_with_llm E title body comments labels state)
           = Raise (ValidationError m)
           /\ IssueAnalysis_init
                (create_fallback_analysis title body (map get_name labels))
              = Raise (ValidationError m)))
  /\ (forall E title body comments labels state e,
        generate_content E
          (build_prompt title body state (map get_name labels) comments)
        = Raise e ->
        labels <> [] ->
        kept_labels (firstn 3 (map get_name labels)) = [] ->
        exists m,
          result (analyze_with_llm E title body comments labels state)
          = Raise (ValidationError m))
  /\ result (analyze_with_llm (example_env model_down 200)
               (py "Crash on start") [] [] colon_labels (py "open"))
     = Raise (ValidationError (py "suggested_labels"))
  /\ result (analyze_with_llm
               (example_env (Ok (py "I cannot help with that.")) 200)
               (py "Crash on start") [] [] colon_labels (py "open"))
     = Raise (ValidationError (py "suggested_labels"))
  /\ fst (post_analyze (example_env (Ok (py "I cannot help with that.")) 200)
            react_url 1)
     = Failure 400 (StrOf (ValidationError (py "suggested_labels"))).
Proof.
  split; [exact analyze_with_llm_cases|].
  split; [|repeat split; vm_compute; reflexivity].
  intros E title body comments labels state e Hg Hne Hk.
  assert (Hl : map get_name labels <> []) by (destruct labels; [contradiction|discriminate]).
  destruct (fallback_refused title body Hl Hk) as [m Hm].
  exists m. unfold analyze_with_llm, bind, emit, lift, try_except, result.
  rewrite Hg. cbn [IssueAnalysis_kwargs fst]. now rewrite Hm.
Qed.

Lemma fallback_construction_can_raise_witness :
  exists m,
    result (analyze_with_llm (example_env model_down 200)
              (py "Login fails") (py "steps") [] colon_labels (py "open"))
    = Raise (ValidationError m).
Proof.
  destruct fallback_construction_can_raise as (_ & H & _).
  apply (H (example_env model_down 200) (py "Login fails") (py "steps") []
           colon_labels (py "open") (OtherException (py "model unreachable"))).
  - reflexivity.
  - discriminate.
  - vm_compute. reflexivity.
Defined.

(* ================================================================= *)
(** ** More about strings and the matcher *)

Lemma lstrip_with_starts (p : ascii -> bool) (s : str) :
  match lstrip_with p s with
  | c :: _ => p c = false
  | [] => True
  end.
Proof.
  induction s as [|c s IH]; simpl; [exact I|].
  destruct (p c) eqn:E; [exact IH|exact E].
Qed.

Lemma lstrip_with_split (p : ascii -> bool) (s : str) :
  exists a, s = a ++ lstrip_with p s /\ forallb p a = true.
Proof.
  induction s as [|c s IH]; simpl.
  - now exists [].
  - destruct (p c) eqn:E.
    + destruct IH as (a & Ha & Hp). exists (c :: a). simpl.
      rewrite E, Hp. split; [now rewrite <- Ha|reflexivity].
    + now exists [].
Qed.

Lemma rstrip_with_split (p : ascii -> bool) (s : str) :
  exists a, s = rstrip_with p s ++ a /\ forallb p a = true.
Proof.
  unfold rstrip_with.
  destruct (lstrip_with_split p (rev s)) as (a & Ha & Hp).
  exists (rev a). split.
  - apply (f_equal (@rev ascii)) in Ha.
    now rewrite rev_involutive, rev_app_distr in Ha.
  - rewrite forallb_forall in *. intros x Hx. apply Hp. now apply in_rev.
Qed.

Lemma rstrip_with_ends (p : ascii -> bool) (s : str) :
  rstrip_with p s = [] \/ exists s' x, rstrip_with p s = s' ++ [x] /\ p x = false.
Proof.
  unfold rstrip_with. pose proof (lstrip_with_starts p (rev s)) as H.
  destruct (lstrip_with p (rev s)) as [|x r]; [now left|].
  right. exists (rev r), x. simpl. auto.
Qed.

(** What [strip] returns is empty or has no white space at either end. *)
Lemma strip_ends (s : str) :
  strip s = [] \/ (starts_clean (strip s) = true /\ ends_clean (strip s) = true).
Proof.
  unfold strip. set (u := lstrip_with isspace s).
  destruct (rstrip_with_ends isspace u) as [E|(s' & x & E & Hx)]; [now left|].
  right. split.
  - destruct (rstrip_with_split isspace u) as (a & Ha & _).
    pose proof (lstrip_with_starts isspace s) as Hs. fold u in Hs.
    rewrite E in *. destruct u as [|c u]; [destruct s'; discriminate|].
    destruct s' as [|c' s']; simpl in Ha; injection Ha as -> _; simpl;
      now rewrite Hs.
  - rewrite E. unfold ends_clean. rewrite rev_app_distr. simpl. now rewrite Hx.
Qed.

Lemma strip_idem (s : str) : strip (strip s) = strip s.
Proof.
  destruct (strip_ends s) as [E|[H1 H2]].
  - rewrite E. reflexivity.
  - now apply strip_clean.
Qed.

Lemma run_captures (A : Type) (r : regex) :
  forall bos s g (K : cont A) x,
    run r bos s g K = Some x ->
    exists w t gs,
      s = w ++ t /\ captures r bos w t gs /\ K w t (g ++ gs) = Some x.
Proof.
  induction r as [| c | p | p | r IH | r IH | r1 IH1 r2 IH2 | |];
    intros bos s g K x H; simpl in H.
  - exists [], s, []. rewrite app_nil_r. repeat split; auto. constructor.
  - destruct s as [|y s]; [discriminate|].
    destruct (chr_eqb y c) eqn:E; [|discriminate].
    apply chr_eqb_eq in E. subst y.
    exists [c], s, []. rewrite app_nil_r. repeat split; auto. constructor.
  - destruct s as [|y s]; [discriminate|].
    destruct (p y) eqn:E; [|discriminate].
    exists [y], s, []. rewrite app_nil_r. repeat split; auto. now constructor.
  - apply star_sound in H as (w & t & -> & Hw & Hk).
    exists w, t, []. rewrite app_nil_r. repeat split; auto. now constructor.
  - destruct (run r bos s g K) eqn:E.
    + injection H as ->.
      apply IH in E as (w & t & gs & -> & Hm & Hk).
      exists w, t, gs. repeat split; auto. now apply C_Opt_some.
    + exists [], s, []. rewrite app_nil_r. repeat split; auto.
      apply C_Opt_none.
  - apply IH in H as (w & t & gs & -> & Hm & Hk).
    exists w, t, (gs ++ [w]). rewrite app_assoc. repeat split; auto.
    now constructor.
  - apply IH1 in H as (w1 & t1 & gs1 & -> & Hm1 & H).
    apply IH2 in H as (w2 & t2 & gs2 & -> & Hm2 & H).
    exists (w1 ++ w2), t2, (gs1 ++ gs2). repeat split.
    + now rewrite app_assoc.
    + now constructor.
    + now rewrite app_assoc.
  - destruct bos; [|discriminate].
    exists [], s, []. rewrite app_nil_r. repeat split; auto. constructor.
  - exists [], s, []. rewrite app_nil_r. repeat split; auto.
    + constructor. destruct s as [|c [|c' s]]; auto; try discriminate.
      destruct (chr_eqb c "010"%char) eqn:E; [|discriminate].
      apply chr_eqb_eq in E. subst. auto.
    + destruct s as [|c [|c' s]]; auto; try discriminate.
      destruct (chr_eqb c "010"%char); [auto|discriminate].
Qed.

Lemma re_match_captures (r : regex) (s : str) (m : match_obj) :
  re_match r s = Some m ->
  exists t, s = group m ++ t /\ captures r true (group m) t (groups m).
Proof.
  unfold re_match. intro H.
  apply run_captures in H as (w & t & gs & -> & Hm & Hk).
  unfold accept in Hk. injection Hk as <-. simpl. now exists t.
Qed.

Lemma captures_Lit w : forall bos x rest gs,
  captures (Lit w) bos x rest gs -> x = w /\ gs = [].
Proof.
  induction w as [|c w IH]; intros bos x rest gs H; simpl in H.
  - now inversion H.
  - inversion H as [| | | | | | |r1 r2 w1 w2 b rs g1 g2 H1 H2| |]; subst.
    inversion H1; subst. apply IH in H2 as [-> ->]. auto.
Qed.

Ltac inv_captures :=
  repeat match goal with
  | H : captures (Cat _ _) _ _ _ _ |- _ => inversion H; clear H; subst
  | H : captures (Grp _) _ _ _ _ |- _ => inversion H; clear H; subst
  | H : captures (Opt _) _ _ _ _ |- _ => inversion H; clear H; subst
  | H : captures (Chr _) _ _ _ _ |- _ => inversion H; clear H; subst
  | H : captures (Cls _) _ _ _ _ |- _ => inversion H; clear H; subst
  | H : captures (Star _) _ _ _ _ |- _ => inversion H; clear H; subst
  | H : captures Bol _ _ _ _ |- _ => inversion H; clear H; subst
  | H : captures Eol _ _ _ _ |- _ => inversion H; clear H; subst
  | H : captures Eps _ _ _ _ |- _ => inversion H; clear H; subst
  end.

Lemma not_slash_name (c : ascii) (w : str) :
  not_slash c = true -> forallb not_slash w = true -> name_ok (c :: w).
Proof.
  intros Hc Hw. split; [discriminate|]. intro H.
  assert (Hall : forallb not_slash (c :: w) = true) by (simpl; now rewrite Hc, Hw).
  rewrite forallb_forall in Hall. apply Hall in H. discriminate.
Qed.

(** What a match of [([^/]+)/([^/]+)/?$] consumes and captures. *)
Lemma captures_owner_repo (bos : bool) (w t : str) (gs : list str) :
  captures owner_repo bos w t gs ->
  exists owner repo tail,
    gs = [owner; repo] /\ name_ok owner /\ name_ok repo
    /\ w = owner ++ py "/" ++ repo ++ tail
    /\ (tail = [] \/ tail = py "/")
    /\ (t = [] \/ t = ["010"%char]).
Proof.
  unfold owner_repo, Plus. intro H. inv_captures.
  - exists (c :: w7), (c0 :: w6), (py "/").
    repeat split; auto using not_slash_name; try discriminate.
    + intro Hin. pose proof (not_slash_name c w7 H0 H2) as [_ Hn]. contradiction.
    + intro Hin. pose proof (not_slash_name c0 w6 H1 H3) as [_ Hn]. contradiction.
  - exists (c :: w7), (c0 :: w6), [].
    repeat split; auto using not_slash_name; try discriminate.
    + intro Hin. pose proof (not_slash_name c w7 H0 H2) as [_ Hn]. contradiction.
    + intro Hin. pose proof (not_slash_name c0 w6 H1 H3) as [_ Hn]. contradiction.
Qed.

(* ================================================================= *)
(** ** More about the URL parser *)

Lemma parse_match_sound (pre : str) (bol : regex) (s : str) (m : match_obj) :
  (bol = Lit pre \/ (bol = Bol /\ pre = [])) ->
  re_match (bol +++ owner_repo) s = Some m ->
  exists o r tail t,
    groups m = [o; r] /\ name_ok o /\ name_ok r
    /\ s = pre ++ o ++ py "/" ++ r ++ tail ++ t
    /\ (tail = [] \/ tail = py "/") /\ (t = [] \/ t = ["010"%char]).
Proof.
  intros Hb H. apply re_match_captures in H as (t & Hs & Hc).
  remember (group m) as w eqn:Hw. clear Hw.
  remember (groups m) as gs eqn:Hg. clear Hg.
  inversion Hc as [| | | | | | |r1 r2 w1 w2 b rs g1 g2 H1 H2| |]; subst.
  apply captures_owner_repo in H2
    as (o & r & tail & -> & Ho & Hr & -> & Htail & Ht).
  assert (Hpre : w1 = pre /\ g1 = []).
  { destruct Hb as [->|[-> ->]].
    - now apply captures_Lit in H1.
    - now inversion H1. }
  destruct Hpre as [-> ->].
  exists o, r, tail, t. repeat split; try assumption; try apply Ho; try apply Hr.
  now rewrite <- !app_assoc.
Qed.

Lemma parse_loop_sound (s owner repo : str) :
  parse_loop patterns s = Ok (owner, repo) ->
  exists sc repo' tail t,
    s = scheme_prefix sc ++ owner ++ py "/" ++ repo' ++ tail ++ t
    /\ name_ok owner /\ name_ok repo' /\ repo = strip_git repo'
    /\ (tail = [] \/ tail = py "/") /\ (t = [] \/ t = ["010"%char]).
Proof.
  unfold patterns. cbn [parse_loop].
  assert (Hstep : forall sc bol m,
            (bol = Lit (scheme_prefix sc) \/ (bol = Bol /\ scheme_prefix sc = [])) ->
            re_match (bol +++ owner_repo) s = Some m ->
            match groups m with
            | [o; r] =>
                Ok (o, if endswith (py ".git") r then slice_to_neg 4 r else r)
            | _ => Raise (ValueError (py "unpack"))
            end = Ok (owner, repo) ->
            exists sc repo' tail t,
              s = scheme_prefix sc ++ owner ++ py "/" ++ repo' ++ tail ++ t
              /\ name_ok owner /\ name_ok repo' /\ repo = strip_git repo'
              /\ (tail = [] \/ tail = py "/") /\ (t = [] \/ t = ["010"%char])).
  { intros sc bol m Hb Hm Hres.
    destruct (@parse_match_sound (scheme_prefix sc) bol s m Hb Hm)
      as (o & r & tail & t & Hg & Ho & Hr & Hs & Htail & Ht).
    rewrite Hg in Hres. injection Hres as <- <-.
    exists sc, r, tail, t. repeat split; try assumption;
      try apply Ho; try apply Hr. }
  destruct (re_match (Lit (py "https://github.com/") +++ owner_repo) s) as [m|] eqn:E1.
  { intro H. apply (Hstep Https (Lit (py "https://github.com/")) m); auto. }
  destruct (re_match (Lit (py "http://github.com/") +++ owner_repo) s) as [m|] eqn:E2.
  { intro H. apply (Hstep Http (Lit (py "http://github.com/")) m); auto. }
  destruct (re_match (Lit (py "github.com/") +++ owner_repo) s) as [m|] eqn:E3.
  { intro H. apply (Hstep Host (Lit (py "github.com/")) m); auto. }
  destruct (re_match (Bol +++ owner_repo) s) as [m|] eqn:E4.
  { intro H. apply (Hstep Bare Bol m); auto. }
  discriminate.
Qed.

Lemma rstrip_chr_ends (s : str) :
  rstrip_chr "/" s = []
  \/ exists s' x, rstrip_chr "/" s = s' ++ [x] /\ x <> "/"%char.
Proof.
  unfold rstrip_chr.
  destruct (rstrip_with_ends (chr_eqb "/"%char) s) as [E|(s' & x & E & Hx)];
    [now left|].
  right. exists s', x. split; [exact E|].
  apply chr_eqb_neq in Hx. congruence.
Qed.

(** X1.  When the parser returns a pair, the owner is not empty, neither
    name has a slash, and the text it matched (the input without surrounding
    white space and trailing slashes) is one of the four prefixes, the owner,
    a slash and the repository name with its optional .git suffix, followed
    by nothing, or by a line feed, or by a slash and a line feed.
    Conversely every text of that shape with nothing after it is parsed to
    that owner and repository. *)
Theorem parse_github_url_shape (url owner repo : str) :
  (parse_github_url url = Ok (owner, repo) ->
   url <> []
   /\ exists sc repo' rest,
        normalized url = scheme_prefix sc ++ owner ++ py "/" ++ repo' ++ rest
        /\ (rest = [] \/ rest = ["010"%char] \/ rest = py "/" ++ ["010"%char])
        /\ name_ok owner /\ name_ok repo' /\ ~ In "/"%char repo
        /\ repo = strip_git repo')
  /\ (forall sc repo',
        url <> [] ->
        normalized url = scheme_prefix sc ++ owner ++ py "/" ++ repo' ->
        name_ok owner -> name_ok repo' -> repo = strip_git repo' ->
        parse_github_url url = Ok (owner, repo)).
Proof.
  split.
  - unfold parse_github_url. destruct (is_empty url) eqn:Ee; [discriminate|].
    apply is_empty_false in Ee. intro H. split; [exact Ee|].
    fold (normalized url) in H.
    apply parse_loop_sound in H
      as (sc & repo' & tail & t & Hs & Ho & Hr & Hrepo & Htail & Ht).
    exists sc, repo', (tail ++ t). split; [exact Hs|].
    split.
    + destruct Htail as [->| ->]; destruct Ht as [->| ->]; auto.
      exfalso. unfold normalized in Hs.
      destruct (rstrip_chr_ends (strip url)) as [E|(s' & x & E & Hx)].
      * rewrite E in Hs. destruct sc, owner; discriminate.
      * rewrite E in Hs. rewrite app_nil_r in Hs.
        rewrite !app_assoc in Hs. change (py "/") with ["/"%char] in Hs.
        apply app_inj_tail in Hs as [_ Hx']. contradiction.
    + repeat split; try apply Ho; try apply Hr; try assumption.
      subst repo. unfold strip_git.
      destruct (endswith (py ".git") repo') eqn:Eg; [|apply Hr].
      unfold slice_to_neg. intro Hin. apply Hr.
      rewrite <- (firstn_skipn (length repo' - 4) repo').
      apply in_or_app. now left.
  - intros sc repo' Hne Hn Ho Hr ->. unfold parse_github_url.
    apply is_empty_false in Hne. rewrite Hne.
    fold (normalized url). rewrite Hn. now apply parse_loop_form.
Qed.

Lemma parse_github_url_shape_witness :
  parse_github_url (py " http://github.com/rocq-prover/rocq.git// ")
  = Ok (py "rocq-prover", py "rocq").
Proof.
  destruct (parse_github_url_shape
              (py " http://github.com/rocq-prover/rocq.git// ")
              (py "rocq-prover") (py "rocq")) as [_ H].
  apply (H Http (py "rocq.git")).
  - discriminate.
  - vm_compute. reflexivity.
  - split; [discriminate | vm_compute; intuition discriminate].
  - split; [discriminate | vm_compute; intuition discriminate].
  - vm_compute. reflexivity.
Defined.

Lemma matches_owner_repo_plain (bos : bool) (w t : str) :
  matches owner_repo_plain bos w t ->
  exists owner repo tail,
    name_ok owner /\ name_ok repo
    /\ w = owner ++ py "/" ++ repo ++ tail
    /\ (tail = [] \/ tail = py "/")
    /\ (t = [] \/ t = ["010"%char]).
Proof.
  unfold owner_repo_plain, Plus. intro H. inv_matches.
  - exists (c0 :: w6), (c :: w7), (py "/").
    split; [now apply not_slash_name|].
    split; [now apply not_slash_name|]. auto.
  - exists (c0 :: w6), (c :: w7), [].
    split; [now apply not_slash_name|].
    split; [now apply not_slash_name|]. auto.
Qed.

Lemma validate_match_shape (pre : str) (bol : regex) (s : str) (m : match_obj) :
  (bol = Lit pre \/ (bol = Bol /\ pre = [])) ->
  re_match (bol +++ owner_repo_plain) s = Some m ->
  exists o r tail t,
    name_ok o /\ name_ok r
    /\ s = pre ++ o ++ py "/" ++ r ++ tail ++ t
    /\ (tail = [] \/ tail = py "/") /\ (t = [] \/ t = ["010"%char]).
Proof.
  intros Hb H. apply re_match_sound in H as (t & Hs & Hc).
  remember (group m) as w eqn:Hw. clear Hw.
  inversion Hc as [| | | | | | |r1 r2 w1 w2 b rs H1 H2| |]; subst.
  apply matches_owner_repo_plain in H2 as (o & r & tail & Ho & Hr & -> & Htail & Ht).
  assert (Hpre : w1 = pre).
  { destruct Hb as [->|[-> ->]].
    - now apply matches_Lit in H1.
    - now inversion H1. }
  subst w1. exists o, r, tail, t. repeat split; try assumption;
    try apply Ho; try apply Hr.
  now rewrite <- !app_assoc.
Qed.

Lemma validate_repo_url_shape (v u : str) :
  validate_repo_url v = Ok u ->
  u = strip v /\ u <> []
  /\ exists sc o r tail,
       u = scheme_prefix sc ++ o ++ py "/" ++ r ++ tail
       /\ name_ok o /\ name_ok r /\ (tail = [] \/ tail = py "/").
Proof.
  unfold validate_repo_url.
  destruct (is_empty v || is_empty (strip v)) eqn:Ee; [discriminate|].
  apply orb_false_iff in Ee as [_ Ee]. apply is_empty_false in Ee.
  destruct (existsb _ github_patterns) eqn:Ex; [|discriminate].
  cbn [negb]. intro H. injection H as <-.
  split; [reflexivity|]. split; [exact Ee|].
  assert (Hclean : ends_clean (strip v) = true).
  { destruct (strip_ends v) as [E|[_ E]]; [contradiction|exact E]. }
  assert (Hstep : forall sc bol m,
            (bol = Lit (scheme_prefix sc) \/ (bol = Bol /\ scheme_prefix sc = [])) ->
            re_match (bol +++ owner_repo_plain) (strip v) = Some m ->
            exists sc o r tail,
              strip v = scheme_prefix sc ++ o ++ py "/" ++ r ++ tail
              /\ name_ok o /\ name_ok r /\ (tail = [] \/ tail = py "/")).
  { intros sc bol m Hb Hm.
    destruct (@validate_match_shape (scheme_prefix sc) bol (strip v) m Hb Hm)
      as (o & r & tail & t & Ho & Hr & Hs & Htail & Ht).
    exists sc, o, r, tail. repeat split; try assumption;
      try apply Ho; try apply Hr.
    destruct Ht as [->| ->]; [now rewrite app_nil_r in Hs|].
    exfalso. rewrite Hs in Hclean. rewrite !app_assoc in Hclean.
    rewrite ends_clean_app in Hclean by discriminate. discriminate. }
  apply existsb_exists in Ex as (p & Hin & Hp).
  destruct (re_match p (strip v)) as [m|] eqn:Em; [|discriminate].
  unfold github_patterns in Hin. simpl in Hin.
  destruct Hin as [<-|[<-|[<-|[<-|[]]]]].
  - apply (Hstep Https (Lit (py "https://github.com/")) m); auto.
  - apply (Hstep Http (Lit (py "http://github.com/")) m); auto.
  - apply (Hstep Host (Lit (py "github.com/")) m); auto.
  - apply (Hstep Bare Bol m); auto.
Qed.

Lemma normalized_body (body n tail : str) :
  name_ok n -> (tail = [] \/ tail = py "/") ->
  starts_clean (body ++ n ++ tail) = true ->
  ends_clean (body ++ n ++ tail) = true ->
  normalized (body ++ n ++ tail) = body ++ n.
Proof.
  intros Hn Htail Hs He. unfold normalized.
  rewrite strip_clean by assumption.
  destruct Htail as [->| ->].
  - rewrite app_nil_r. now apply rstrip_chr_name.
  - change (py "/") with ["/"%char]. rewrite !app_assoc.
    unfold rstrip_chr. rewrite rstrip_with_drop by reflexivity.
    now apply rstrip_chr_name.
Qed.

Lemma validated_url_parses (v u : str) :
  validate_repo_url v = Ok u ->
  u = strip v /\ u <> []
  /\ exists owner repo,
       parse_github_url u = Ok (owner, repo)
       /\ name_ok owner /\ ~ In "/"%char repo.
Proof.
  intro H. destruct (validate_repo_url_shape v H)
    as (Hu & Hne & sc & o & r & tail & Hs & Ho & Hr & Htail).
  split; [exact Hu|]. split; [exact Hne|].
  exists o, (strip_git r).
  assert (Hends : starts_clean u = true /\ ends_clean u = true).
  { rewrite Hu. destruct (strip_ends v) as [E|E]; [|exact E].
    rewrite Hu in Hne. contradiction. }
  destruct Hends as [Hsc Hec].
  assert (Hnorm : normalized u = scheme_prefix sc ++ o ++ py "/" ++ r).
  { rewrite Hs in *.
    replace (scheme_prefix sc ++ o ++ py "/" ++ r ++ tail)
      with ((scheme_prefix sc ++ o ++ py "/") ++ r ++ tail) in *
      by now rewrite <- !app_assoc.
    rewrite normalized_body by assumption. now rewrite <- !app_assoc. }
  split; [|split; [apply Ho|]].
  - unfold parse_github_url. apply is_empty_false in Hne. rewrite Hne.
    fold (normalized u). rewrite Hnorm. now apply parse_loop_form.
  - unfold strip_git. destruct (endswith (py ".git") r); [|apply Hr].
    unfold slice_to_neg. intro Hin. apply Hr.
    rewrite <- (firstn_skipn (length r - 4) r). apply in_or_app. now left.
Qed.

(** X2.  A repository URL that the request model accepts is returned
    trimmed, is not empty, and is always parsed by [parse_github_url]: for a
    request that passed validation the parser never raises, the owner it
    returns is not empty and neither name has a slash. *)
Theorem validated_url_is_parsed (v u : str) :
  validate_repo_url v = Ok u ->
  u = strip v /\ u <> []
  /\ exists owner repo,
       parse_github_url u = Ok (owner, repo)
       /\ name_ok owner /\ ~ In "/"%char repo.
Proof. exact (@validated_url_parses v u). Qed.

Lemma validated_url_is_parsed_witness :
  exists owner repo,
    parse_github_url (py "github.com/facebook/react/") = Ok (owner, repo)
    /\ name_ok owner /\ ~ In "/"%char repo.
Proof.
  destruct (@validated_url_is_parsed (py "  github.com/facebook/react/ ")
              (py "github.com/facebook/react/")) as (_ & _ & H).
  - vm_compute. reflexivity.
  - exact H.
Defined.

(* ================================================================= *)
(** ** More about the fallback analysis and the analysis path *)

Lemma strip_head_kept (c : ascii) (s : str) :
  isspace c = false -> exists s', strip (c :: s) = c :: s'.
Proof.
  intro Hc. unfold strip. rewrite lstrip_with_head by exact Hc.
  destruct (rstrip_with_split isspace (c :: s)) as (a & Ha & Hp).
  destruct (rstrip_with isspace (c :: s)) as [|x r] eqn:E.
  - simpl in Ha. subst a. simpl in Hp. rewrite Hc in Hp. discriminate.
  - simpl in Ha. injection Ha as <- _. now exists r.
Qed.

Lemma fallback_summary_length (title : str) :
  length (fallback_summary title) <= 120.
Proof.
  unfold fallback_summary, slice_to. rewrite !length_app.
  rewrite length_firstn.
  change (length (py "Issue regarding: ")) with 17.
  destruct (100 <? length title);
    [change (length (py "...")) with 3 | change (length (@nil ascii)) with 0];
    lia.
Qed.

Lemma fallback_field_summary (title body : str) (ls : list str) :
  field_summary (create_fallback_analysis title body ls)
  = Ok (strip (fallback_summary title))
  /\ strip (fallback_summary title) <> [].
Proof.
  assert (Hne : exists s', strip (fallback_summary title) = "I"%char :: s').
  { unfold fallback_summary. change (py "Issue regarding: ")
      with ("I"%char :: py "ssue regarding: ").
    simpl app. now apply strip_head_kept. }
  destruct Hne as [s' Hs']. split; [|rewrite Hs'; discriminate].
  unfold field_summary, create_fallback_analysis, get_str.
  cbn [dict_get]. change (str_eqb (py "summary") (py "summary")) with true.
  cbv iota. fold (fallback_summary title).
  unfold and_then at 2, check_max_length.
  pose proof (fallback_summary_length title) as Hl.
  destruct (Nat.leb_spec (length (fallback_summary title)) 200) as [_|Hgt]; [|lia].
  unfold and_then, validate_summary. rewrite Hs'.
  destruct (fallback_summary title) eqn:Ef; [|reflexivity].
  unfold fallback_summary in Ef. discriminate.
Qed.

Lemma fallback_field_type (title body : str) (ls : list str) :
  exists ty,
    field_type (create_fallback_analysis title body ls) = Ok ty
    /\ dict_get (py "type") (create_fallback_analysis title body ls)
       = Some (JStr ty).
Proof.
  unfold field_type, create_fallback_analysis, get_str.
  cbn [dict_get]. change (str_eqb (py "summary") (py "type")) with false.
  change (str_eqb (py "type") (py "type")) with true. cbv iota.
  destruct (any_in bug_words (lower title));
    [|destruct (any_in feature_words (lower title));
      [|destruct (any_in doc_words (lower title));
        [|destruct (startswith_any question_prefixes (lower title))]]];
    eexists; split; reflexivity.
Qed.

Lemma fallback_field_priority (title body : str) (ls : list str) :
  field_priority_score (create_fallback_analysis title body ls)
  = Ok fixed_priority.
Proof. reflexivity. Qed.

Lemma fallback_field_impact (title body : str) (ls : list str) :
  field_potential_impact (create_fallback_analysis title body ls)
  = Ok fixed_impact.
Proof. reflexivity. Qed.

Lemma fallback_field_labels (title body : str) (ls : list str) :
  field_suggested_labels (create_fallback_analysis title body ls)
  = match ls with
    | [] => Ok [py "needs-triage"]
    | _ =>
        match kept_labels (firstn 3 ls) with
        | [] => Raise (ValueError (py "No valid labels found"))
        | _ => Ok (kept_labels (firstn 3 ls))
        end
    end.
Proof.
  rewrite (field_suggested_labels_spec _ (fallback_get_labels title body ls)).
  unfold fallback_labels. destruct ls as [|l ls]; [reflexivity|].
  assert (H : (1 <=? length (firstn 3 (l :: ls)))
              && (length (firstn 3 (l :: ls)) <=? 5) = true).
  { rewrite length_firstn. cbn [length].
    apply andb_true_iff. split; apply Nat.leb_le; lia. }
  now rewrite H.
Qed.

Lemma fallback_accepted (title body : str) (ls : list str) :
  ls = [] \/ kept_labels (firstn 3 ls) <> [] ->
  exists a, IssueAnalysis_init (create_fallback_analysis title body ls) = Ok a.
Proof.
  intro H.
  pose proof (fallback_field_labels title body ls) as Hl.
  destruct (fallback_field_summary title body ls) as [Hs _].
  destruct (fallback_field_type title body ls) as (ty & Ht & _).
  assert (Hok : exists labels,
            field_suggested_labels (create_fallback_analysis title body ls)
            = Ok labels).
  { rewrite Hl. destruct H as [->|H]; [eexists; reflexivity|].
    destruct ls as [|l ls]; [eexists; reflexivity|].
    destruct (kept_labels (firstn 3 (l :: ls))); [contradiction|].
    eexists; reflexivity. }
  destruct Hok as [labels Hlabels].
  exists {| summary := strip (fallback_summary title); type := ty;
            priority_score := fixed_priority; suggested_labels := labels;
            potential_impact := fixed_impact |}.
  apply IssueAnalysis_init_ok. cbn. auto.
Qed.

Lemma fallback_refused_only (title body : str) (ls : list str) (e : exn) :
  IssueAnalysis_init (create_fallback_analysis title body ls) = Raise e ->
  ls <> [] /\ kept_labels (firstn 3 ls) = [].
Proof.
  intro H. destruct ls as [|l ls].
  - destruct (@fallback_accepted title body [] (or_introl eq_refl)) as [a Ha].
    rewrite Ha in H. discriminate.
  - split; [discriminate|].
    destruct (kept_labels (firstn 3 (l :: ls))) as [|k ks] eqn:K; [reflexivity|].
    destruct (@fallback_accepted title body (l :: ls)) as [a Ha].
    + right. rewrite K. discriminate.
    + rewrite Ha in H. discriminate.
Qed.

(** X3.  The model accepts the fallback analysis exactly when the issue has
    no label or one of its first three labels survives the cleaning.  The
    analysis then has the trimmed summary, of at most 120 characters, the
    type of the keyword rules, the two fixed texts, and as labels
    needs-triage or the cleaned survivors of the first three labels. *)
Theorem fallback_accepted_iff (title body : str) (ls : list str) :
  let fb := create_fallback_analysis title body ls in
  ((exists a, IssueAnalysis_init fb = Ok a)
   <-> (ls = [] \/ kept_labels (firstn 3 ls) <> []))
  /\ (forall a,
        IssueAnalysis_init fb = Ok a ->
        summary a = strip (fallback_summary title)
        /\ length (summary a) <= 120
        /\ heuristic_type title (type a)
        /\ priority_score a = fixed_priority
        /\ potential_impact a = fixed_impact
        /\ suggested_labels a
           = match ls with
             | [] => [py "needs-triage"]
             | _ => kept_labels (firstn 3 ls)
             end).
Proof.
  intro fb. subst fb.
  destruct (fallback_field_summary title body ls) as [Hs Hsn].
  destruct (fallback_field_type title body ls) as (ty & Ht & Hd).
  pose proof (fallback_field_priority title body ls) as Hp.
  pose proof (fallback_field_impact title body ls) as Hi.
  pose proof (fallback_field_labels title body ls) as Hl.
  split; [split|].
  - intros [a Ha]. apply IssueAnalysis_init_ok in Ha as (_ & _ & _ & Ha & _).
    rewrite Hl in Ha. destruct ls as [|l ls]; [now left|]. right.
    destruct (kept_labels (firstn 3 (l :: ls))); [discriminate|discriminate].
  - intro H.
    assert (Hok : exists labels,
              field_suggested_labels (create_fallback_analysis title body ls)
              = Ok labels).
    { rewrite Hl. destruct H as [->|H]; [eexists; reflexivity|].
      destruct ls as [|l ls]; [eexists; reflexivity|].
      destruct (kept_labels (firstn 3 (l :: ls))); [contradiction|].
      eexists; reflexivity. }
    destruct Hok as [labels Hlabels].
    exists {| summary := strip (fallback_summary title); type := ty;
              priority_score := fixed_priority; suggested_labels := labels;
              potential_impact := fixed_impact |}.
    apply IssueAnalysis_init_ok. cbn. auto.
  - intros a Ha. apply IssueAnalysis_init_ok in Ha as (Ha1 & Ha2 & Ha3 & Ha4 & Ha5).
    rewrite Hs in Ha1. rewrite Ht in Ha2. rewrite Hp in Ha3. rewrite Hi in Ha5.
    injection Ha1 as Ha1. injection Ha2 as Ha2. injection Ha3 as Ha3.
    injection Ha5 as Ha5.
    split; [now symmetry|].
    split.
    { rewrite <- Ha1. etransitivity; [apply strip_length|].
      apply fallback_summary_length. }
    split.
    { destruct (fallback_type title body ls) as (ty' & Hd' & Hh).
      rewrite Hd in Hd'. injection Hd' as <-. now rewrite <- Ha2. }
    split; [now symmetry|]. split; [now symmetry|].
    rewrite Hl in Ha4. destruct ls as [|l ls].
    + now injection Ha4 as <-.
    + destruct (kept_labels (firstn 3 (l :: ls))) eqn:K; [discriminate|].
      now injection Ha4 as <-.
Qed.

(** X4.  When the issue has no label, or one of its first three labels
    survives the cleaning, the analysis path returns a valid analysis
    whatever the model does: it raises, answers nothing, answers text that
    is not JSON, or answers an object that the model rejects. *)
Theorem analyze_with_llm_total (E : env) (title body comments : str)
  (labels : list label) (state : str) :
  labels = [] \/ kept_labels (firstn 3 (map get_name labels)) <> [] ->
  exists a,
    result (analyze_with_llm E title body comments labels state) = Ok a
    /\ valid_analysis a = true.
Proof.
  intro H.
  destruct (analyze_with_llm_cases E title body comments labels state)
    as [Hok|(m & _ & Hm)]; [exact Hok|].
  exfalso.
  assert (Hfb : exists a,
            IssueAnalysis_init
              (create_fallback_analysis title body (map get_name labels)) = Ok a).
  { pose proof (fallback_field_labels title body (map get_name labels)) as Hl.
    destruct (fallback_field_summary title body (map get_name labels)) as [Hs _].
    destruct (fallback_field_type title body (map get_name labels)) as (ty & Ht & _).
    assert (Hok : exists ls,
              field_suggested_labels
                (create_fallback_analysis title body (map get_name labels)) = Ok ls).
    { rewrite Hl. destruct H as [->|H]; [eexists; reflexivity|].
      destruct (map get_name labels) as [|l ls]; [eexists; reflexivity|].
      destruct (kept_labels (firstn 3 (l :: ls))); [contradiction|].
      eexists; reflexivity. }
    destruct Hok as [ls Hls].
    exists {| summary := strip (fallback_summary title); type := ty;
              priority_score := fixed_priority; suggested_labels := ls;
              potential_impact := fixed_impact |}.
    apply IssueAnalysis_init_ok. cbn. auto. }
  destruct Hfb as [a Ha]. rewrite Ha in Hm. discriminate.
Qed.

Lemma analyze_with_llm_total_witness :
  exists a,
    result (analyze_with_llm (example_env model_down 200)
              (py "Crash on start") [] []
              [ {| label_name := Some (py "type: bug") |};
                {| label_name := Some (py "Good First Issue") |} ]
              (py "open")) = Ok a
    /\ valid_analysis a = true.
Proof.
  apply analyze_with_llm_total. right. vm_compute. discriminate.
Defined.

(** X5.  The analysis path calls the model exactly once, with the prompt
    built from the issue, whatever the model answers: there is no second
    attempt when the answer is unusable. *)
Theorem analyze_with_llm_one_call (E : env) (title body comments : str)
  (labels : list label) (state : str) :
  trace (analyze_with_llm E title body comments labels state)
  = [Generate (build_prompt title body state (map get_name labels) comments)].
Proof.
  unfold analyze_with_llm, bind, emit, lift, try_except, raise, trace.
  destruct (generate_content E _) as [text|e]; [|reflexivity].
  destruct (is_empty text); [reflexivity|].
  destruct (IssueAnalysis_kwargs _); reflexivity.
Qed.

(* ================================================================= *)
(** ** More about the GitHub client and the endpoint *)

Lemma get_issue_data_raises (E : env) (owner repo : str) (n : Z) (e : exn) :
  (1 <= n)%Z ->
  requests_get_issue E (issue_url owner repo n) (get_github_headers E)
  = HttpRaises e ->
  get_issue_data E owner repo n
  = (Raise (match e with
            | Timeout => RequestException (py "GitHub API request timed out")
            | ConnectionError =>
                RequestException (py "Failed to connect to GitHub API")
            | _ => e
            end),
     [HttpGet (issue_url owner repo n) (get_github_headers E)]).
Proof.
  intros Hn Hr. unfold get_issue_data.
  destruct (Z.leb_spec n 0) as [H0|H0]; [lia|].
  unfold bind, emit, try_except, raise, lift. rewrite Hr.
  destruct e; reflexivity.
Qed.

(** X6.  The issue fetch makes no call for a number below 1 and exactly one
    call, to the issue URL of the owner, repository and number, otherwise.
    It returns an issue only when the status is 200 and the body decodes to
    it, and what it raises is never a Timeout or a ConnectionError. *)
Theorem get_issue_data_outcomes (E : env) (owner repo : str) (n : Z) :
  let url := issue_url owner repo n in
  let r := get_issue_data E owner repo n in
  ((n <= 0)%Z -> trace r = [])
  /\ ((1 <= n)%Z -> trace r = [HttpGet url (get_github_headers E)])
  /\ result r <> Raise Timeout
  /\ result r <> Raise ConnectionError
  /\ (forall issue,
        result r = Ok issue ->
        (1 <= n)%Z
        /\ requests_get_issue E url (get_github_headers E)
           = HttpResponse 200 (Ok issue)).
Proof.
  intros url r. subst url r.
  destruct (Z.leb_spec n 0) as [H0|H0].
  - rewrite (get_issue_data_nonpositive E owner repo H0).
    repeat split; intros; try reflexivity; try lia; try discriminate.
  - assert (H1 : (1 <= n)%Z) by lia.
    destruct (requests_get_issue E (issue_url owner repo n) (get_github_headers E))
      as [sc b|e] eqn:Hr.
    + rewrite (get_issue_data_status E owner repo H1 Hr).
      unfold trace, result. cbn [fst snd].
      destruct (Z.eqb_spec sc 404) as [->|H404];
        [repeat split; intros; try reflexivity; try lia; try discriminate|].
      destruct (Z.eqb_spec sc 403) as [->|H403];
        [repeat split; intros; try reflexivity; try lia; try discriminate|].
      destruct (Z.eqb_spec sc 200) as [->|H200]; cbn [negb];
        [|repeat split; intros; try reflexivity; try lia; try discriminate].
      destruct b as [a|[]]; repeat split; intros; try reflexivity; try lia;
        try discriminate; try congruence.
    + rewrite (get_issue_data_raises E owner repo H1 Hr).
      unfold trace, result. cbn [fst snd].
      destruct e; repeat split; intros; try reflexivity; try lia;
        try discriminate.
Qed.

Lemma get_issue_data_outcomes_witness :
  trace (get_issue_data (example_env (Ok example_reply) 200)
           (py "facebook") (py "react") 7)
  = [HttpGet (py "https://api.github.com/repos/facebook/react/issues/7")
       (get_github_headers (example_env (Ok example_reply) 200))].
Proof.
  destruct (get_issue_data_outcomes (example_env (Ok example_reply) 200)
              (py "facebook") (py "react") 7) as (_ & H & _).
  apply H. lia.
Defined.

Lemma analyze_issue_fetch_raises (E : env) (data : IssueRequest)
  (owner repo : str) (e : exn) (t : list event) :
  parse_github_url (repo_url data) = Ok (owner, repo) ->
  get_issue_data E owner repo (issue_number data) = (Raise e, t) ->
  analyze_issue E data = (inr (handled_exn e), t).
Proof.
  intros Hp Hg. unfold analyze_issue. rewrite Hp.
  unfold bind at 1, lift at 1. rewrite Hg. unfold handled_exn.
  cbn [bind app]. destruct (is_ValueError e); [reflexivity|].
  destruct (is_RequestException e); reflexivity.
Qed.

Lemma post_analyze_handler (E : env) (url : str) (n : Z) (data : IssueRequest) :
  IssueRequest_init url n = Ok data ->
  post_analyze E url n
  = match analyze_issue E data with
    | (inl a, t) => (Success a, t)
    | (inr (HTTPException sc d), t) => (Failure sc d, t)
    end.
Proof. intro Hd. unfold post_analyze. now rewrite Hd. Qed.

(** X7.  For a request that passed validation: when the issue fetch answers
    404 the endpoint answers 400 with the text that names the issue and the
    repository; when the fetch times out or cannot connect the endpoint
    answers 502; when it raises anything that is neither a ValueError nor a
    RequestException the endpoint answers 500 with the fixed text.  Each
    time the issue fetch is the only outbound call. *)
Theorem issue_fetch_failures (E : env) (url : str) (n : Z) (data : IssueRequest)
  (owner repo : str) :
  IssueRequest_init url n = Ok data ->
  parse_github_url (repo_url data) = Ok (owner, repo) ->
  let outcome :=
    requests_get_issue E (issue_url owner repo n) (get_github_headers E) in
  let g := HttpGet (issue_url owner repo n) (get_github_headers E) in
  (forall b, outcome = HttpResponse 404 b ->
     post_analyze E url n
     = (Failure 400 (StrOf (ValueError (not_found_msg owner repo n))), [g]))
  /\ (outcome = HttpRaises Timeout \/ outcome = HttpRaises ConnectionError ->
      post_analyze E url n = (Failure 502 bad_gateway, [g]))
  /\ (forall e, outcome = HttpRaises e ->
        is_ValueError e = false -> is_RequestException e = false ->
        post_analyze E url n = (Failure 500 internal_error, [g])).
Proof.
  intros Hd Hp outcome g. subst outcome g.
  destruct (IssueRequest_init_ok url n Hd) as (_ & Hn & H1).
  rewrite (@post_analyze_handler E url n data Hd).
  split; [|split].
  - intros b Hr.
    pose proof (get_issue_data_status E owner repo H1 Hr) as Hg.
    rewrite <- Hn in Hg at 1.
    now rewrite (@analyze_issue_fetch_raises E data owner repo _ _ Hp Hg).
  - intros [Hr|Hr];
      pose proof (get_issue_data_raises E owner repo H1 Hr) as Hg;
      rewrite <- Hn in Hg at 1;
      now rewrite (@analyze_issue_fetch_raises E data owner repo _ _ Hp Hg).
  - intros e Hr Hv Hq.
    pose proof (get_issue_data_raises E owner repo H1 Hr) as Hg.
    rewrite <- Hn in Hg at 1.
    rewrite (@analyze_issue_fetch_raises E data owner repo _ _ Hp Hg).
    assert (He : handled_exn
                   match e with
                   | Timeout => RequestException (py "GitHub API request timed out")
                   | ConnectionError =>
                       RequestException (py "Failed to connect to GitHub API")
                   | _ => e
                   end = HTTPException 500 internal_error).
    { unfold handled_exn. destruct e; try discriminate; simpl in *;
        try reflexivity. }
    now rewrite He.
Qed.

Lemma analyze_with_llm_trace (E : env) (title body comments : str)
  (labels : list label) (state : str) :
  trace (analyze_with_llm E title body comments labels state)
  = [Generate (build_prompt title body state (map get_name labels) comments)].
Proof.
  unfold analyze_with_llm, bind, emit, lift, try_except, raise, trace.
  destruct (generate_content E _) as [text|e]; [|reflexivity].
  destruct (is_empty text); [reflexivity|].
  destruct (IssueAnalysis_kwargs _); reflexivity.
Qed.

Lemma get_issue_comments_shape (E : env) (u : str) :
  exists s,
    get_issue_comments E u
    = (Ok s, if is_empty u then [] else [HttpGet u (get_github_headers E)]).
Proof.
  unfold get_issue_comments. destruct u as [|c u]; [now exists []|].
  cbn [is_empty]. unfold bind, emit, lift, try_except, ret, raise.
  destruct (requests_get_comments E (c :: u) (get_github_headers E))
    as [sc [cs|e]|e]; try (eexists; reflexivity).
  - destruct (sc =? 200)%Z; cbn [negb]; [|eexists; reflexivity].
    destruct cs as [|c0 cs]; [eexists; reflexivity|].
    destruct (format_comments (c0 :: cs) []); eexists; reflexivity.
  - destruct (sc =? 200)%Z; eexists; reflexivity.
Qed.

Lemma get_issue_data_trace (E : env) (owner repo : str) (n : Z) :
  trace (get_issue_data E owner repo n) = []
  \/ trace (get_issue_data E owner repo n)
     = [HttpGet (issue_url owner repo n) (get_github_headers E)].
Proof.
  destruct (Z.leb_spec n 0) as [H0|H0].
  - left. now rewrite (get_issue_data_nonpositive E owner repo H0).
  - right. assert (H1 : (1 <= n)%Z) by lia.
    destruct (requests_get_issue E (issue_url owner repo n) (get_github_headers E))
      as [sc b|e] eqn:Hr.
    + now rewrite (get_issue_data_status E owner repo H1 Hr).
    + now rewrite (get_issue_data_raises E owner repo H1 Hr).
Qed.

(** The handler once the issue is there. *)
Lemma analyze_issue_fetched (E : env) (data : IssueRequest)
  (owner repo : str) (issue : RawIssue) (t : list event) :
  parse_github_url (repo_url data) = Ok (owner, repo) ->
  get_issue_data E owner repo (issue_number data) = (Ok issue, t) ->
  analyze_issue E data
  = match title issue with
    | None => (inr (HTTPException 500 internal_error), t)
    | Some ti =>
        let c := if (0 <? comments issue)%Z
                 then get_issue_comments E (comments_url issue) else ret [] in
        match result c with
        | Raise e => (inr (handled_exn e), t ++ trace c)
        | Ok cm =>
            let a := analyze_with_llm E ti
                       (match body issue with Some b => b | None => [] end)
                       cm (labels issue) (state issue) in
            (match result a with
             | Ok x => inl x
             | Raise e => inr (handled_exn e)
             end, t ++ trace c ++ trace a)
        end
    end.
Proof.
  intros Hp Hg. unfold analyze_issue. rewrite Hp.
  unfold bind at 1, lift at 1. rewrite Hg.
  cbv beta iota zeta delta [bind lift].
  destruct (title issue) as [ti|].
  - destruct (if (0 <? comments issue)%Z
              then get_issue_comments E (comments_url issue) else ret [])
      as [[cm|e] tc]; unfold result, trace, handled_exn; cbn [fst snd app].
    + destruct (analyze_with_llm E ti _ cm (labels issue) (state issue))
        as [[x|e] ta]; cbn [fst snd app]; [reflexivity|].
      destruct (is_ValueError e); [reflexivity|].
      destruct (is_RequestException e); reflexivity.
    + destruct (is_ValueError e); [reflexivity|].
      destruct (is_RequestException e); reflexivity.
  - cbn [app is_ValueError is_RequestException]. now rewrite app_nil_r.
Qed.

(** X8.  When GitHub answers 200 with an object that has no title, the
    endpoint answers 500 with the fixed text: neither the comments nor the
    model are asked. *)
Theorem missing_title_is_500 (E : env) (url : str) (n : Z) (data : IssueRequest)
  (owner repo : str) (issue : RawIssue) :
  IssueRequest_init url n = Ok data ->
  parse_github_url (repo_url data) = Ok (owner, repo) ->
  requests_get_issue E (issue_url owner repo n) (get_github_headers E)
  = HttpResponse 200 (Ok issue) ->
  title issue = None ->
  post_analyze E url n
  = (Failure 500 internal_error,
     [HttpGet (issue_url owner repo n) (get_github_headers E)]).
Proof.
  intros Hd Hp Hr Ht.
  destruct (IssueRequest_init_ok url n Hd) as (_ & Hn & H1).
  rewrite (@post_analyze_handler E url n data Hd).
  pose proof (get_issue_data_status E owner repo H1 Hr) as Hg.
  cbn [Z.eqb Pos.eqb negb] in Hg. rewrite <- Hn in Hg at 1.
  rewrite (@analyze_issue_fetched E data owner repo _ _ Hp Hg).
  now rewrite Ht.
Qed.

(** X9.  A request is served with at most three outbound calls, in this
    order: the issue fetch, the comments fetch (only to a comments URL that
    is not empty), the model.  The model is asked at most once and only
    after the issue was fetched, and an analysis that is returned is always
    valid and comes after a model call, which is the last call. *)
Theorem analyze_issue_calls (E : env) (data : IssueRequest) :
  let t := snd (analyze_issue E data) in
  let h := get_github_headers E in
  (t = []
   \/ exists owner repo,
        parse_github_url (repo_url data) = Ok (owner, repo)
        /\ let g := HttpGet (issue_url owner repo (issue_number data)) h in
           t = [g]
           \/ (exists p, t = [g; Generate p])
           \/ (exists cu p, cu <> [] /\ t = [g; HttpGet cu h; Generate p]))
  /\ (forall a,
        fst (analyze_issue E data) = inl a ->
        valid_analysis a = true /\ exists t' p, t = t' ++ [Generate p]).
Proof.
  intros t h. subst t h.
  destruct (parse_github_url (repo_url data)) as [[owner repo]|e] eqn:Hp.
  2: { unfold analyze_issue. rewrite Hp. cbn [bind lift].
       destruct (is_ValueError e); [|destruct (is_RequestException e)];
         (split; [now left | discriminate]). }
  destruct (get_issue_data E owner repo (issue_number data)) as [[issue|e] tg] eqn:Hg.
  2: { rewrite (@analyze_issue_fetch_raises E data owner repo e tg Hp Hg).
       cbn [fst snd]. split; [|discriminate].
       destruct (get_issue_data_trace E owner repo (issue_number data)) as [Ht|Ht];
         rewrite Hg in Ht; unfold trace in Ht; cbn [snd] in Ht; subst tg.
       - now left.
       - right. exists owner, repo. split; [reflexivity|]. now left. }
  assert (Htg : tg = [HttpGet (issue_url owner repo (issue_number data))
                        (get_github_headers E)]).
  { destruct (Z.leb_spec (issue_number data) 0) as [H0|H0].
    - rewrite (get_issue_data_nonpositive E owner repo H0) in Hg. discriminate.
    - destruct (get_issue_data_trace E owner repo (issue_number data)) as [Ht|Ht];
        rewrite Hg in Ht; unfold trace in Ht; cbn [snd] in Ht; [|exact Ht].
      exfalso.
      assert (H1 : (1 <= issue_number data)%Z) by lia.
      destruct (requests_get_issue E (issue_url owner repo (issue_number data))
                  (get_github_headers E)) as [sc b|e] eqn:Hr.
      + rewrite (get_issue_data_status E owner repo H1 Hr) in Hg.
        injection Hg as _ Hg. subst tg. discriminate.
      + rewrite (get_issue_data_raises E owner repo H1 Hr) in Hg. discriminate. }
  subst tg.
  pose proof (@analyze_issue_fetched E data owner repo issue _ Hp Hg) as Ha.
  destruct (title issue) as [ti|].
  2: { rewrite Ha. cbn [fst snd]. split; [|discriminate].
       right. exists owner, repo. split; [reflexivity|]. now left. }
  assert (Hc : exists cm tc,
            (if (0 <? comments issue)%Z
             then get_issue_comments E (comments_url issue) else ret [])
            = (Ok cm, tc)
            /\ (tc = [] \/ (comments_url issue <> []
                           /\ tc = [HttpGet (comments_url issue)
                                      (get_github_headers E)]))).
  { destruct (0 <? comments issue)%Z.
    - destruct (get_issue_comments_shape E (comments_url issue)) as [s Hs].
      rewrite Hs. exists s. eexists. split; [reflexivity|].
      destruct (comments_url issue); [now left|right].
      split; [discriminate|reflexivity].
    - exists [], []. split; [reflexivity|now left]. }
  destruct Hc as (cm & tc & Hc & Htc). cbv zeta in Ha. rewrite Hc in Ha.
  unfold result at 1 in Ha. cbn [fst] in Ha.
  unfold trace at 1 in Ha. cbn [snd] in Ha.
  rewrite analyze_with_llm_trace in Ha.
  set (p := build_prompt ti _ (state issue) (map get_name (labels issue)) cm) in Ha.
  rewrite Ha. cbn [fst snd].
  split.
  - right. exists owner, repo. split; [reflexivity|]. right.
    destruct Htc as [->|[Hcu ->]].
    + left. now exists p.
    + right. now exists (comments_url issue), p.
  - intros a Hres.
    destruct (analyze_with_llm_cases E ti
                (match body issue with Some b => b | None => [] end)
                cm (labels issue) (state issue))
      as [(a' & Hr & Hv)|(m & Hr & _)]; rewrite Hr in Hres.
    + injection Hres as <-. split; [exact Hv|].
      eexists. exists p. now rewrite app_assoc.
    + discriminate.
Qed.

Lemma get_issue_comments_unavailable (E : env)
  (f : str -> headers -> http_outcome (list comment)) (u : str) :
  comments_unavailable (f u (get_github_headers E)) ->
  get_issue_comments (with_comments E f) u
  = (Ok [], if is_empty u then [] else [HttpGet u (get_github_headers E)]).
Proof.
  intro H. unfold get_issue_comments. destruct u as [|c u]; [reflexivity|].
  cbn [is_empty]. unfold bind, emit, lift, try_except, ret, raise.
  change (get_github_headers (with_comments E f)) with (get_github_headers E).
  change (requests_get_comments (with_comments E f)) with f.
  destruct (f (c :: u) (get_github_headers E)) as [sc [cs|e]|e];
    try reflexivity.
  - simpl in H. destruct (Z.eqb_spec sc 200) as [->|Hsc]; [|reflexivity].
    cbn [negb]. destruct H as [H|[H|H]]; [contradiction| |].
    + now subst cs.
    + destruct cs as [|c0 cs]; [reflexivity|].
      destruct (format_comments_raises [] H) as [e He]. now rewrite He.
  - destruct (sc =? 200)%Z; reflexivity.
Qed.

(** X10.  A comments fetch that fails never changes the answer: when the
    comments endpoint raises, answers another status than 200, sends a body
    that cannot be read or a comment with a null user or body, the handler
    gives the same result, after the same outbound calls, as for an issue
    whose comments list is empty. *)
Theorem comments_failure_is_absorbed (E : env)
  (f : str -> headers -> http_outcome (list comment)) (data : IssueRequest) :
  (forall u h, comments_unavailable (f u h)) ->
  analyze_issue (with_comments E f) data
  = analyze_issue (with_comments E no_comments) data.
Proof.
  intro H.
  assert (Hc : forall u,
            get_issue_comments (with_comments E f) u
            = get_issue_comments (with_comments E no_comments) u).
  { intro u. rewrite !get_issue_comments_unavailable; auto.
    unfold no_comments. simpl. auto. }
  destruct (parse_github_url (repo_url data)) as [[owner repo]|e] eqn:Hp.
  2: { unfold analyze_issue. now rewrite Hp. }
  destruct (get_issue_data (with_comments E f) owner repo (issue_number data))
    as [[issue|e] tg] eqn:Hg.
  - assert (Hg' : get_issue_data (with_comments E no_comments) owner repo
                    (issue_number data) = (Ok issue, tg)) by exact Hg.
    rewrite (@analyze_issue_fetched _ data owner repo issue tg Hp Hg).
    rewrite (@analyze_issue_fetched _ data owner repo issue tg Hp Hg').
    destruct (title issue) as [ti|]; [|reflexivity].
    cbv zeta. destruct (0 <? comments issue)%Z; [|reflexivity].
    rewrite Hc. reflexivity.
  - assert (Hg' : get_issue_data (with_comments E no_comments) owner repo
                    (issue_number data) = (Raise e, tg)) by exact Hg.
    rewrite (@analyze_issue_fetch_raises _ data owner repo e tg Hp Hg).
    now rewrite (@analyze_issue_fetch_raises _ data owner repo e tg Hp Hg').
Qed.

Lemma comments_failure_is_absorbed_witness :
  analyze_issue
    (with_comments (example_env (Ok example_reply) 200)
       (fun _ _ => HttpRaises Timeout))
    {| repo_url := react_url; issue_number := 1 |}
  = analyze_issue
      (with_comments (example_env (Ok example_reply) 200) no_comments)
      {| repo_url := react_url; issue_number := 1 |}.
Proof.
  apply comments_failure_is_absorbed. intros u h. exact I.
Defined.

(* ================================================================= *)
(** ** More about the models *)

Lemma isspace_lower_chr (c : ascii) : isspace (lower_chr c) = isspace c.
Proof. each_chr c. Qed.

Lemma lstrip_lower (s : str) :
  lstrip_with isspace (lower s) = lower (lstrip_with isspace s).
Proof.
  unfold lower. induction s as [|c s IH]; simpl; [reflexivity|].
  rewrite isspace_lower_chr. destruct (isspace c); [exact IH|reflexivity].
Qed.

Lemma strip_lower (s : str) : strip (lower s) = lower (strip s).
Proof.
  unfold strip, rstrip_with. rewrite lstrip_lower.
  unfold lower at 1. rewrite <- map_rev. fold (lower (rev (lstrip_with isspace s))).
  rewrite lstrip_lower. unfold lower. now rewrite map_rev.
Qed.

Lemma cleaned_fixed (entry : str) : cleaned (cleaned entry) = cleaned entry.
Proof.
  unfold cleaned. now rewrite strip_lower, strip_idem, lower_idem.
Qed.

Lemma keeps_cleaned (entry : str) : keeps entry = true -> keeps (cleaned entry) = true.
Proof.
  unfold keeps. intro H. apply andb_true_iff in H as [Hne Hc].
  rewrite cleaned_fixed, Hc.
  assert (Hs : strip (cleaned entry) = cleaned entry).
  { unfold cleaned. now rewrite strip_lower, strip_idem. }
  rewrite Hs. unfold cleaned, lower.
  destruct (strip entry); [discriminate|reflexivity].
Qed.

Lemma kept_labels_fixpoints (v : list str) :
  Forall (fun l => keeps l = true /\ cleaned l = l) (kept_labels v).
Proof.
  unfold kept_labels. induction v as [|l v IH]; simpl; [constructor|].
  destruct (keeps l) eqn:K; [|exact IH]. simpl. constructor; [|exact IH].
  split; [now apply keeps_cleaned | apply cleaned_fixed].
Qed.

Lemma kept_labels_of_fixpoints (ks : list str) (n : nat) :
  Forall (fun l => keeps l = true /\ cleaned l = l) ks ->
  kept_labels (firstn n ks) = firstn n ks.
Proof.
  intro H. revert n. induction H as [|l ks [Hk Hc] _ IH]; intro n.
  - now destruct n.
  - destruct n; [reflexivity|]. simpl. unfold kept_labels in *. simpl.
    rewrite Hk. simpl. now rewrite Hc, IH.
Qed.

Lemma validate_labels_result (v ls : list str) :
  validate_labels v = Ok ls ->
  v <> [] /\ ls = firstn 5 (kept_labels v) /\ ls <> [].
Proof.
  unfold validate_labels. destruct v as [|l v]; [discriminate|].
  rewrite clean_labels_spec.
  destruct (kept_labels (l :: v)) as [|k ks] eqn:K; [discriminate|].
  intro H. injection H as <-. repeat split; discriminate.
Qed.

(** X12.  The four validators are idempotent: a summary, an impact, a list
    of labels or a repository URL that a validator returned is returned
    unchanged when it is validated again.  A returned summary, impact or URL
    is the trimmed input and is not empty; a returned list of labels has one
    to five entries. *)
Theorem validators_idempotent :
  (forall v s, validate_summary v = Ok s ->
     s = strip v /\ s <> [] /\ validate_summary s = Ok s)
  /\ (forall v s, validate_potential_impact v = Ok s ->
        s = strip v /\ s <> [] /\ validate_potential_impact s = Ok s)
  /\ (forall v ls, validate_labels v = Ok ls ->
        1 <= length ls <= 5 /\ validate_labels ls = Ok ls)
  /\ (forall v u, validate_repo_url v = Ok u ->
        u = strip v /\ u <> [] /\ validate_repo_url u = Ok u).
Proof.
  assert (Htrim : forall v s msg,
            (if is_empty v || is_empty (strip v)
             then Raise (ValueError msg) else Ok (strip v)) = Ok s ->
            s = strip v /\ s <> []
            /\ (if is_empty s || is_empty (strip s)
                then Raise (ValueError msg) else Ok (strip s)) = Ok s).
  { intros v s msg H.
    destruct (is_empty v || is_empty (strip v)) eqn:Ee; [discriminate|].
    injection H as <-. apply orb_false_iff in Ee as [_ Ee].
    split; [reflexivity|]. split; [now apply is_empty_false|].
    now rewrite strip_idem, Ee. }
  split; [|split; [|split]].
  - intros v s H. exact (Htrim v s _ H).
  - intros v s H. exact (Htrim v s _ H).
  - intros v ls H. apply validate_labels_result in H as (Hv & Hls & Hne).
    assert (Hlen : 1 <= length ls <= 5).
    { split.
      - destruct ls; [contradiction|simpl; lia].
      - rewrite Hls, length_firstn. lia. }
    split; [exact Hlen|].
    assert (Hfix : kept_labels ls = ls).
    { rewrite Hls. apply kept_labels_of_fixpoints, kept_labels_fixpoints. }
    unfold validate_labels. rewrite clean_labels_spec, Hfix.
    destruct ls as [|l ls']; [contradiction|].
    now rewrite firstn_all2 by lia.
  - intros v u H. unfold validate_repo_url in *.
    destruct (is_empty v || is_empty (strip v)) eqn:Ee; [discriminate|].
    destruct (existsb _ github_patterns) eqn:Ex; [|discriminate].
    cbn [negb] in H. injection H as <-.
    apply orb_false_iff in Ee as [_ Ee].
    split; [reflexivity|]. split; [now apply is_empty_false|].
    now rewrite strip_idem, Ee, Ex.
Qed.

Lemma validators_idempotent_witness :
  validate_labels [py "bug"; py "ui"] = Ok [py "bug"; py "ui"].
Proof.
  destruct validators_idempotent as (_ & _ & H & _).
  apply (H [py " Bug "; py "bad!"; py "UI"]). vm_compute. reflexivity.
Defined.

Lemma get_str_list_some (d : dict) (ls : list str) :
  get_str_list "suggested_labels" d = Ok ls ->
  exists items, dict_get (py "suggested_labels") d = Some (JArr items).
Proof.
  unfold get_str_list.
  destruct (dict_get (py "suggested_labels") d) as [[| | | |items|]|];
    try discriminate.
  intros _. now exists items.
Qed.

(** X11.  An analysis that is constructed satisfies the bounds of the
    model, its type being one of the five literals.  A missing key among the
    five, a text key bound to something else than a string, a type outside
    the five literals, a summary that is blank or longer than 200
    characters: each makes the construction raise, and what it raises is
    always a ValidationError. *)
Theorem IssueAnalysis_construction (d : dict) :
  (forall a, IssueAnalysis_init d = Ok a ->
     valid_analysis a = true /\ In (type a) issue_types)
  /\ (forall key, In key analysis_keys -> dict_get key d = None ->
        exists m, IssueAnalysis_init d = Raise (ValidationError m))
  /\ (forall key v, In key text_keys -> dict_get key d = Some v ->
        (forall s, v <> JStr s) ->
        exists m, IssueAnalysis_init d = Raise (ValidationError m))
  /\ (forall t, dict_get (py "type") d = Some (JStr t) -> ~ In t issue_types ->
        exists m, IssueAnalysis_init d = Raise (ValidationError m))
  /\ (forall s, dict_get (py "summary") d = Some (JStr s) ->
        200 < length s \/ strip s = [] ->
        exists m, IssueAnalysis_init d = Raise (ValidationError m))
  /\ (forall e, IssueAnalysis_init d = Raise e -> exists m, e = ValidationError m).
Proof.
  assert (Htype : forall a, IssueAnalysis_init d = Ok a -> In (type a) issue_types).
  { intros a H. apply IssueAnalysis_init_ok in H as (_ & Ht & _).
    unfold field_type, get_str, check_type, and_then in Ht.
    destruct (dict_get (py "type") d) as [[| | |t| |]|]; try discriminate.
    destruct (existsb (str_eqb t) issue_types) eqn:Et; [|discriminate].
    injection Ht as <-. apply existsb_exists in Et as (x & Hin & Hx).
    apply str_eqb_eq in Hx. now subst. }
  assert (Hrej : forall P : Prop,
            (forall a, IssueAnalysis_init d = Ok a -> P -> False) -> P ->
            exists m, IssueAnalysis_init d = Raise (ValidationError m)).
  { intros P HP Hp. destruct (IssueAnalysis_init_cases d) as [[a Ha]|Hr];
      [exfalso; eauto | exact Hr]. }
  split; [|split; [|split; [|split; [|split]]]].
  - intros a H. split; [now apply IssueAnalysis_init_valid in H | now apply Htype].
  - intros key Hin Hnone. apply (Hrej (dict_get key d = None)); [|exact Hnone].
    intros a Ha Hk. apply analysis_fields in Ha
      as (s & t & p & ls & i & H1 & _ & H2 & _ & H3 & _ & H4 & _ & H5 & _).
    apply get_str_list_some in H4 as [items H4].
    unfold analysis_keys in Hin. cbn [In] in Hin.
    destruct Hin as [<-|[<-|[<-|[<-|[<-|[]]]]]]; congruence.
  - intros key v Hin Hv Hns.
    apply (Hrej (dict_get key d = Some v)); [|exact Hv].
    intros a Ha Hk. apply analysis_fields in Ha
      as (s & t & p & ls & i & H1 & _ & H2 & _ & H3 & _ & _ & _ & H5 & _).
    unfold text_keys in Hin. cbn [In] in Hin.
    destruct Hin as [<-|[<-|[<-|[<-|[]]]]];
      rewrite Hk in *;
      match goal with
      | H : Some v = Some (JStr ?x) |- _ => injection H as ->; now apply (Hns x)
      end.
  - intros t Ht Hnot. apply (Hrej (~ In t issue_types)); [|exact Hnot].
    intros a Ha Hn. pose proof (Htype a Ha) as Hin.
    apply analysis_fields in Ha
      as (s & t' & p & ls & i & _ & _ & H2 & Hta & _).
    rewrite Ht in H2. injection H2 as <-. rewrite Hta in Hin. contradiction.
  - intros s Hs Hbad.
    apply (Hrej (200 < length s \/ strip s = [])); [|exact Hbad].
    intros a Ha Hb. apply IssueAnalysis_init_ok in Ha as (Ha & _).
    apply field_trimmed in Ha as (s' & Hs' & Hx & Hlen & Hne).
    rewrite Hs in Hs'. injection Hs' as <-.
    destruct Hb as [Hb|Hb]; [lia|]. rewrite Hb in Hx. contradiction.
  - exact (IssueAnalysis_init_raises d).
Qed.

Lemma IssueAnalysis_construction_witness :
  exists m,
    IssueAnalysis_init
      [ (py "summary", JStr (py "x")); (py "type", JStr (py "task"));
        (py "priority_score", JStr (py "1"));
        (py "suggested_labels", JArr [JStr (py "bug")]);
        (py "potential_impact", JStr (py "y")) ]
    = Raise (ValidationError m).
Proof.
  destruct (IssueAnalysis_construction
              [ (py "summary", JStr (py "x")); (py "type", JStr (py "task"));
                (py "priority_score", JStr (py "1"));
                (py "suggested_labels", JArr [JStr (py "bug")]);
                (py "potential_impact", JStr (py "y")) ])
    as (_ & _ & _ & H & _).
  apply (H (py "task")).
  - reflexivity.
  - vm_compute. intuition discriminate.
Defined.

(** X13.  The candidate handed to the JSON decoder is always a contiguous
    part of the trimmed reply that the search receives; when it is not the
    whole trimmed reply it starts with an opening and ends with a closing
    brace; and extracting again from the candidate gives the candidate. *)
Theorem extract_json_is_a_part (text : str) :
  (exists pre post, text = pre ++ extract_json text ++ post)
  /\ (extract_json text <> text ->
      exists mid, extract_json text = py "{" ++ mid ++ py "}")
  /\ extract_json (extract_json text) = extract_json text.
Proof.
  destruct (search_from json_pattern true text) as [m|] eqn:E.
  - assert (Hx : extract_json text = group m)
      by (unfold extract_json, re_search; now rewrite E).
    rewrite Hx.
    apply search_from_sound in E as (a & t & b & Hs & Hm).
    unfold json_pattern in Hm. remember (group m) as w eqn:Hw. clear Hw Hx.
    inv_matches.
    assert (Hagain : extract_json (["{"%char] ++ w0 ++ ["}"%char])
                     = ["{"%char] ++ w0 ++ ["}"%char]).
    { pose proof (@extract_json_span [] w0 []) as H.
      simpl in H. apply H; intros []. }
    split; [|split].
    + exists a, t. reflexivity.
    + intros _. now exists w0.
    + exact Hagain.
  - assert (Hx : extract_json text = text)
      by (unfold extract_json, re_search; now rewrite E).
    rewrite !Hx. split; [|split].
    + exists [], []. now rewrite app_nil_r.
    + congruence.
    + reflexivity.
Qed.

Lemma extract_json_is_a_part_witness :
  exists mid, extract_json (py "ok {a} and {b} done") = py "{" ++ mid ++ py "}".
Proof.
  destruct (extract_json_is_a_part (py "ok {a} and {b} done")) as (_ & H & _).
  apply H. vm_compute. discriminate.
Defined.

(* ================================================================= *)
(** ** More about the service as a whole *)

Lemma accepted_request_is_fetched (E : env) (url : str) (n : Z)
  (data : IssueRequest) :
  IssueRequest_init url n = Ok data ->
  exists owner repo rest,
    parse_github_url (repo_url data) = Ok (owner, repo)
    /\ snd (analyze_issue E data)
       = HttpGet (issue_url owner repo n) (get_github_headers E) :: rest.
Proof.
  intro Hd. destruct (IssueRequest_init_ok url n Hd) as (Hv & Hn & H1).
  destruct (validated_url_parses url Hv) as (_ & _ & owner & repo & Hp & _).
  exists owner, repo.
  destruct (get_issue_data E owner repo (issue_number data)) as [[issue|e] tg] eqn:Hg.
  - assert (Htg : tg = [HttpGet (issue_url owner repo n) (get_github_headers E)]).
    { rewrite Hn in Hg.
      destruct (requests_get_issue E (issue_url owner repo n) (get_github_headers E))
        as [sc b|e] eqn:Hr.
      - rewrite (get_issue_data_status E owner repo H1 Hr) in Hg.
        now injection Hg as _ <-.
      - rewrite (get_issue_data_raises E owner repo H1 Hr) in Hg. discriminate. }
    subst tg.
    rewrite (@analyze_issue_fetched E data owner repo issue _ Hp Hg).
    destruct (title issue) as [ti|].
    + cbv zeta. destruct (result _); eexists; split; try exact Hp; reflexivity.
    + eexists. split; [exact Hp|reflexivity].
  - rewrite (@analyze_issue_fetch_raises E data owner repo e tg Hp Hg).
    rewrite Hn in Hg.
    destruct (requests_get_issue E (issue_url owner repo n) (get_github_headers E))
      as [sc b|e'] eqn:Hr.
    + rewrite (get_issue_data_status E owner repo H1 Hr) in Hg.
      injection Hg as _ <-. eexists. split; [exact Hp|reflexivity].
    + rewrite (get_issue_data_raises E owner repo H1 Hr) in Hg.
      injection Hg as _ <-. eexists. split; [exact Hp|reflexivity].
Qed.

(** X14.  The service makes an outbound call exactly when the request passes
    the request model; the number is then at least 1, the URL is parsed, and
    the first call is the fetch of that issue.  A request that does not pass
    is answered 422 and nothing else is. *)
Theorem outbound_calls_iff_valid_request (E : env) (url : str) (n : Z) :
  ((exists data, IssueRequest_init url n = Ok data)
   <-> snd (post_analyze E url n) <> [])
  /\ ((exists data, IssueRequest_init url n = Ok data)
      <-> status (fst (post_analyze E url n)) <> 422%Z)
  /\ (forall data,
        IssueRequest_init url n = Ok data ->
        (1 <= n)%Z
        /\ exists owner repo rest,
             parse_github_url (repo_url data) = Ok (owner, repo)
             /\ snd (post_analyze E url n)
                = HttpGet (issue_url owner repo n) (get_github_headers E) :: rest).
Proof.
  assert (Hstatus : forall data,
            IssueRequest_init url n = Ok data ->
            status (fst (post_analyze E url n)) <> 422%Z).
  { intros data Hd. rewrite (@post_analyze_handler E url n data Hd).
    unfold analyze_issue. cbv zeta.
    destruct (bind (lift (parse_github_url (repo_url data))) _) as [[a|e] t];
      cbn [fst status]; [discriminate|].
    destruct (is_ValueError e); [cbn; discriminate|].
    destruct (is_RequestException e); cbn; discriminate. }
  assert (Hcalls : forall data,
            IssueRequest_init url n = Ok data ->
            exists owner repo rest,
              parse_github_url (repo_url data) = Ok (owner, repo)
              /\ snd (post_analyze E url n)
                 = HttpGet (issue_url owner repo n) (get_github_headers E) :: rest).
  { intros data Hd.
    destruct (accepted_request_is_fetched E url n Hd)
      as (owner & repo & rest & Hp & Ht).
    exists owner, repo, rest. split; [exact Hp|].
    rewrite (@post_analyze_handler E url n data Hd).
    destruct (analyze_issue E data) as [[a|[sc dt]] t]; exact Ht. }
  split; [|split].
  - split.
    + intros [data Hd]. destruct (Hcalls data Hd) as (o & r & rest & _ & Ht).
      rewrite Ht. discriminate.
    + intro H. destruct (IssueRequest_init url n) as [data|e] eqn:Hd;
        [now exists data|].
      exfalso. apply H. unfold post_analyze. now rewrite Hd.
  - split.
    + intros [data Hd]. now apply (Hstatus data).
    + intro H. destruct (IssueRequest_init url n) as [data|e] eqn:Hd;
        [now exists data|].
      exfalso. apply H. unfold post_analyze. now rewrite Hd.
  - intros data Hd. split; [now apply (IssueRequest_init_ok url n Hd)|].
    now apply Hcalls.
Qed.

Lemma outbound_calls_iff_valid_request_witness :
  exists data, IssueRequest_init (py " facebook/react/ ") 12 = Ok data.
Proof.
  destruct (outbound_calls_iff_valid_request
              (example_env (Ok example_reply) 200) (py " facebook/react/ ") 12)
    as ([_ H] & _).
  apply H. vm_compute. discriminate.
Defined.

(** X15.  Once the issue has been fetched and has a title, the endpoint
    answers 200 or 400, never 500 or 502, whatever the comments endpoint and
    the model do; it answers 400 only when the issue has labels and none of
    its first three labels survives the cleaning. *)
Theorem fetched_issue_answers (E : env) (url : str) (n : Z) (data : IssueRequest)
  (owner repo : str) (issue : RawIssue) (ti : str) :
  IssueRequest_init url n = Ok data ->
  parse_github_url (repo_url data) = Ok (owner, repo) ->
  requests_get_issue E (issue_url owner repo n) (get_github_headers E)
  = HttpResponse 200 (Ok issue) ->
  title issue = Some ti ->
  let st := status (fst (post_analyze E url n)) in
  (st = 200%Z \/ st = 400%Z)
  /\ (st = 400%Z ->
      labels issue <> []
      /\ kept_labels (firstn 3 (map get_name (labels issue))) = []).
Proof.
  intros Hd Hp Hr Ht st. subst st.
  destruct (IssueRequest_init_ok url n Hd) as (_ & Hn & H1).
  rewrite (@post_analyze_handler E url n data Hd).
  pose proof (get_issue_data_status E owner repo H1 Hr) as Hg.
  cbn [Z.eqb Pos.eqb negb] in Hg. rewrite <- Hn in Hg at 1.
  rewrite (@analyze_issue_fetched E data owner repo _ _ Hp Hg). rewrite Ht.
  cbv zeta.
  assert (Hc : exists cm tc,
            (if (0 <? comments issue)%Z
             then get_issue_comments E (comments_url issue) else ret [])
            = (Ok cm, tc)).
  { destruct (0 <? comments issue)%Z.
    - destruct (get_issue_comments_shape E (comments_url issue)) as [s Hs].
      rewrite Hs. eauto.
    - exists [], []. reflexivity. }
  destruct Hc as (cm & tc & Hc). rewrite Hc.
  change (result (Ok cm, tc)) with (Ok cm). cbv iota beta.
  destruct (analyze_with_llm_cases E ti
              (match body issue with Some b => b | None => [] end)
              cm (labels issue) (state issue))
    as [(a & Hres & _)|(m & Hres & Hfb)]; rewrite Hres.
  - cbn [fst status]. split; [now left|discriminate].
  - cbn [fst status handled_exn is_ValueError]. split; [now right|].
    intros _. apply fallback_refused_only in Hfb as [Hne Hk].
    split; [|exact Hk]. intro Hl. apply Hne. now rewrite Hl.
Qed.

Lemma fetched_issue_answers_witness :
  status (fst (post_analyze (example_env (Ok example_reply) 200) react_url 1))
  = 200%Z
  \/ status (fst (post_analyze (example_env (Ok example_reply) 200) react_url 1))
     = 400%Z.
Proof.
  destruct (@fetched_issue_answers (example_env (Ok example_reply) 200)
              react_url 1 {| repo_url := react_url; issue_number := 1 |}
              (py "facebook") (py "react") example_issue (py "Crash on start"))
    as [H _].
  - vm_compute. reflexivity.
  - vm_compute. reflexivity.
  - reflexivity.
  - reflexivity.
  - exact H.
Defined.

Lemma fallback_accepted_iff_witness :
  exists a,
    IssueAnalysis_init
      (create_fallback_analysis (py "Crash on start") [] [py "type: bug"; py " UI "])
    = Ok a.
Proof.
  destruct (fallback_accepted_iff (py "Crash on start") []
              [py "type: bug"; py " UI "]) as [[_ H] _].
  apply H. right. vm_compute. discriminate.
Defined.

Lemma issue_fetch_failures_witness :
  post_analyze (example_env (Ok example_reply) 404) react_url 5
  = (Failure 400
       (StrOf (ValueError (not_found_msg (py "facebook") (py "react") 5))),
     [HttpGet (issue_url (py "facebook") (py "react") 5)
        (get_github_headers (example_env (Ok example_reply) 404))]).
Proof.
  destruct (@issue_fetch_failures (example_env (Ok example_reply) 404)
              react_url 5 {| repo_url := react_url; issue_number := 5 |}
              (py "facebook") (py "react")) as [H _].
  - vm_compute. reflexivity.
  - vm_compute. reflexivity.
  - apply (H (Ok example_issue)). reflexivity.
Defined.

Lemma missing_title_is_500_witness :
  post_analyze (env_with_issue untitled_issue) react_url 5
  = (Failure 500 internal_error,
     [HttpGet (issue_url (py "facebook") (py "react") 5)
        (get_github_headers (env_with_issue untitled_issue))]).
Proof.
  apply (@missing_title_is_500 (env_with_issue untitled_issue) react_url 5
           {| repo_url := react_url; issue_number := 5 |}
           (py "facebook") (py "react") untitled_issue).
  - vm_compute. reflexivity.
  - vm_compute. reflexivity.
  - reflexivity.
  - reflexivity.
Defined.

Lemma analyze_issue_calls_witness :
  valid_analysis example_analysis = true.
Proof.
  destruct (analyze_issue_calls (example_env (Ok example_reply) 200)
              {| repo_url := react_url; issue_number := 1 |}) as [_ H].
  apply (H example_analysis). vm_compute. reflexivity.
Defined.
